(** * Nutri-Coach-Pro: the recipe request/response handler

    A shallow embedding of [generateRecipes] from
    [src/components/RecipeGenerator.tsx]: prompt construction, removal of
    markdown fences from the model's answer, [JSON.parse], the diet filter
    and the updates of the component state.

    JavaScript strings are sequences of 16-bit code units; they are modelled
    as lists of code units ([N]).  Every string literal of the program is
    ASCII and is written with [js]. *)

From Stdlib Require Import Ascii String.
From Stdlib Require Import List NArith Bool Arith Lia Sorted.
Import ListNotations.

Set Implicit Arguments.
Local Open Scope string_scope.
Local Open Scope list_scope.
Local Open Scope N_scope.

(* ================================================================== *)
(** ** JavaScript strings *)

Module JsString.

Definition jsstring := list N.

(** An ASCII literal as a sequence of code units. *)
Definition js (s : string) : jsstring :=
  List.map N_of_ascii (list_ascii_of_string s).

(** A literal in which every apostrophe stands for the quotation mark
    (code unit 34); used for texts that contain quotation marks. *)
Definition jsq (s : string) : jsstring :=
  List.map (fun c => if c =? 39 then 34 else c) (js s).

Fixpoint eqb (a b : jsstring) : bool :=
  match a, b with
  | [], [] => true
  | x :: a', y :: b' => (x =? y) && eqb a' b'
  | _, _ => false
  end.

(** [startsWith p s]: [p] is a prefix of [s]. *)
Fixpoint startsWith (p s : jsstring) : bool :=
  match p, s with
  | [], _ => true
  | x :: p', y :: s' => (x =? y) && startsWith p' s'
  | _ :: _, [] => false
  end.

(** [String.prototype.includes] with a string argument: [p] occurs in [s]. *)
Fixpoint includes (p s : jsstring) : bool :=
  startsWith p s ||
  match s with
  | [] => false
  | _ :: s' => includes p s'
  end.

(** ECMAScript WhiteSpace and LineTerminator code points, the characters
    that [String.prototype.trim] removes. *)
Definition isTrimChar (c : N) : bool :=
  (c =? 9) || (c =? 10) || (c =? 11) || (c =? 12) || (c =? 13) ||
  (c =? 32) || (c =? 160) || (c =? 5760) ||
  ((8192 <=? c) && (c <=? 8202)) ||
  (c =? 8232) || (c =? 8233) || (c =? 8239) || (c =? 8287) ||
  (c =? 12288) || (c =? 65279).

Fixpoint trimStart (s : jsstring) : jsstring :=
  match s with
  | [] => []
  | c :: r => if isTrimChar c then trimStart r else s
  end.

Fixpoint trimEnd (s : jsstring) : jsstring :=
  match s with
  | [] => []
  | c :: r =>
      match trimEnd r with
      | [] => if isTrimChar c then [] else [c]
      | r' => c :: r'
      end
  end.

Definition trim (s : jsstring) : jsstring := trimEnd (trimStart s).

End JsString.
Import JsString.

(* ================================================================== *)
(** ** Line 74: [text.replace(/```json|```/g, "").trim()] *)

Definition fence : jsstring := js "```".
Definition fence_json : jsstring := js "```json".

(** The global replace scans from left to right.  At each position the
    alternatives are tried in order; a match is dropped and scanning resumes
    behind it, otherwise the code unit is copied.  [skip] counts the code
    units of the current match that are still to be dropped. *)
Fixpoint replaceFences (skip : nat) (s : jsstring) : jsstring :=
  match s with
  | [] => []
  | c :: r =>
      match skip with
      | S k => replaceFences k r
      | O =>
          if startsWith fence_json s then replaceFences 6 r
          else if startsWith fence s then replaceFences 2 r
          else c :: replaceFences 0 r
      end
  end.

Definition removeFences (s : jsstring) : jsstring := replaceFences 0 s.

Definition sanitize (text : jsstring) : jsstring := trim (removeFences text).

(* ================================================================== *)
(** ** Values produced by [JSON.parse] *)

(** A number is kept as its validated lexeme: no claim depends on the
    conversion to a double.  An object keeps its own properties in
    insertion order, one entry per key (the engine lists keys that are
    array indices first; nothing here enumerates keys). *)
#[warnings="-register-all"]
Inductive JsValue : Type :=
| JNull
| JBool (b : bool)
| JNum (lexeme : jsstring)
| JStr (s : jsstring)
| JArr (elems : list JsValue)
| JObj (props : list (jsstring * JsValue)).

(** [CreateDataProperty]: a key that is already present keeps its place and
    takes the new value, a new key is appended. *)
Fixpoint obj_set (props : list (jsstring * JsValue)) (k : jsstring) (v : JsValue)
  : list (jsstring * JsValue) :=
  match props with
  | [] => [(k, v)]
  | (k', v') :: rest =>
      if JsString.eqb k' k then (k', v) :: rest
      else (k', v') :: obj_set rest k v
  end.

Fixpoint obj_get (props : list (jsstring * JsValue)) (k : jsstring)
  : option JsValue :=
  match props with
  | [] => None
  | (k', v') :: rest => if JsString.eqb k' k then Some v' else obj_get rest k
  end.

(* ================================================================== *)
(** ** [JSON.parse] (ECMA-404 grammar, as ECMAScript applies it) *)

Module Json.

Inductive PRes (A : Type) : Type :=
| POk (a : A) (rest : jsstring)
| PErr
| PFuel.
Arguments PErr {A}.
Arguments PFuel {A}.

Definition isJsonWs (c : N) : bool :=
  (c =? 9) || (c =? 10) || (c =? 13) || (c =? 32).

Fixpoint skip_ws (s : jsstring) : jsstring :=
  match s with
  | [] => []
  | c :: r => if isJsonWs c then skip_ws r else s
  end.

Definition isDigit (c : N) : bool := (48 <=? c) && (c <=? 57).

Definition hexval (c : N) : option N :=
  if isDigit c then Some (c - 48)
  else if (97 <=? c) && (c <=? 102) then Some (c - 87)
  else if (65 <=? c) && (c <=? 70) then Some (c - 55)
  else None.

Definition hex4 (a b c d : N) : option N :=
  match hexval a, hexval b, hexval c, hexval d with
  | Some x, Some y, Some z, Some w => Some (((x * 16 + y) * 16 + z) * 16 + w)
  | _, _, _, _ => None
  end.

(** The code unit denoted by a one-character escape. *)
Definition escape (c : N) : option N :=
  if c =? 34 then Some 34          (* quotation mark *)
  else if c =? 92 then Some 92     (* reverse solidus *)
  else if c =? 47 then Some 47     (* solidus *)
  else if c =? 98 then Some 8      (* b: backspace *)
  else if c =? 102 then Some 12    (* f: form feed *)
  else if c =? 110 then Some 10    (* n: line feed *)
  else if c =? 114 then Some 13    (* r: carriage return *)
  else if c =? 116 then Some 9     (* t: tab *)
  else None.

(** The parse tree of a JSON text; an object lists its members as they
    are written. *)
#[warnings="-register-all"]
Inductive Tree : Type :=
| TNull
| TBool (b : bool)
| TNum (lexeme : jsstring)
| TStr (s : jsstring)
| TArr (elems : list Tree)
| TObj (members : list (jsstring * Tree)).

(** The characters of a string literal, after the opening quote. *)
Fixpoint parse_string (s : jsstring) : PRes jsstring :=
  match s with
  | [] => PErr
  | c :: r =>
      if c =? 34 then POk [] r
      else if c =? 92 then
        match r with
        | [] => PErr
        | e :: r1 =>
            if e =? 117 then
              match r1 with
              | h1 :: h2 :: h3 :: h4 :: r2 =>
                  match hex4 h1 h2 h3 h4 with
                  | Some u =>
                      match parse_string r2 with
                      | POk t rest => POk (u :: t) rest
                      | bad => bad
                      end
                  | None => PErr
                  end
              | _ => PErr
              end
            else
              match escape e with
              | Some u =>
                  match parse_string r1 with
                  | POk t rest => POk (u :: t) rest
                  | bad => bad
                  end
              | None => PErr
              end
        end
      else if c <? 32 then PErr
      else
        match parse_string r with
        | POk t rest => POk (c :: t) rest
        | bad => bad
        end
  end.

(** The longest prefix of digits, and what follows it. *)
Fixpoint span_digits (s : jsstring) : jsstring * jsstring :=
  match s with
  | [] => ([], [])
  | c :: r =>
      if isDigit c then let (d, rest) := span_digits r in (c :: d, rest)
      else ([], s)
  end.

(** -? (0 | [1-9][0-9]* ) (. [0-9]+)? ([eE] [+-]? [0-9]+)? *)
Definition parse_int (s : jsstring) : option (jsstring * jsstring) :=
  match s with
  | [] => None
  | c :: r =>
      if c =? 48 then Some ([c], r)
      else if isDigit c then let (d, rest) := span_digits r in Some (c :: d, rest)
      else None
  end.

Definition parse_frac (s : jsstring) : option (jsstring * jsstring) :=
  match s with
  | c :: r =>
      if c =? 46 then
        match span_digits r with
        | ([], _) => None
        | (d, rest) => Some (c :: d, rest)
        end
      else Some ([], s)
  | [] => Some ([], s)
  end.

Definition parse_exp (s : jsstring) : option (jsstring * jsstring) :=
  match s with
  | c :: r =>
      if (c =? 101) || (c =? 69) then
        let (sign, r1) :=
          match r with
          | g :: r' => if (g =? 43) || (g =? 45) then ([g], r') else ([], r)
          | [] => ([], r)
          end in
        match span_digits r1 with
        | ([], _) => None
        | (d, rest) => Some (c :: sign ++ d, rest)
        end
      else Some ([], s)
  | [] => Some ([], s)
  end.

Definition number_tail (minus s0 : jsstring) : PRes Tree :=
  match parse_int s0 with
  | None => PErr
  | Some (i, s1) =>
      match parse_frac s1 with
      | None => PErr
      | Some (f, s2) =>
          match parse_exp s2 with
          | None => PErr
          | Some (e, s3) => POk (TNum (minus ++ i ++ f ++ e)) s3
          end
      end
  end.

Definition parse_number (s : jsstring) : PRes Tree :=
  match s with
  | c :: r => if c =? 45 then number_tail [c] r else number_tail [] s
  | [] => number_tail [] s
  end.

Definition parse_literal (word : jsstring) (v : Tree) (s : jsstring)
  : PRes Tree :=
  if startsWith word s then POk v (skipn (length word) s) else PErr.

(** Recursive descent; every recursive call takes one unit of fuel.  The
    elements and members read so far are held in reverse. *)
Fixpoint parse_value (fuel : nat) (s : jsstring) : PRes Tree :=
  match fuel with
  | O => PFuel
  | S f =>
      match skip_ws s with
      | [] => PErr
      | c :: r =>
          if c =? 91 then                              (* [ *)
            match skip_ws r with
            | d :: r' => if d =? 93 then POk (TArr []) r'
                         else parse_elements f (skip_ws r) []
            | [] => PErr
            end
          else if c =? 123 then                        (* { *)
            match skip_ws r with
            | d :: r' => if d =? 125 then POk (TObj []) r'
                         else parse_members f (skip_ws r) []
            | [] => PErr
            end
          else if c =? 34 then
            match parse_string r with
            | POk t rest => POk (TStr t) rest
            | PErr => PErr
            | PFuel => PFuel
            end
          else if c =? 116 then parse_literal (js "true") (TBool true) (c :: r)
          else if c =? 102 then parse_literal (js "false") (TBool false) (c :: r)
          else if c =? 110 then parse_literal (js "null") TNull (c :: r)
          else parse_number (c :: r)
      end
  end

with parse_elements (fuel : nat) (s : jsstring) (acc : list Tree)
  : PRes Tree :=
  match fuel with
  | O => PFuel
  | S f =>
      match parse_value f s with
      | POk v r =>
          match skip_ws r with
          | d :: r' =>
              if d =? 44 then parse_elements f r' (v :: acc)
              else if d =? 93 then POk (TArr (rev (v :: acc))) r'
              else PErr
          | [] => PErr
          end
      | bad => bad
      end
  end

with parse_members (fuel : nat) (s : jsstring)
                   (acc : list (jsstring * Tree)) : PRes Tree :=
  match fuel with
  | O => PFuel
  | S f =>
      match skip_ws s with
      | q :: r =>
          if q =? 34 then
            match parse_string r with
            | POk k r1 =>
                match skip_ws r1 with
                | colon :: r2 =>
                    if colon =? 58 then
                      match parse_value f r2 with
                      | POk v r3 =>
                          match skip_ws r3 with
                          | d :: r4 =>
                              if d =? 44 then
                                parse_members f r4 ((k, v) :: acc)
                              else if d =? 125 then
                                POk (TObj (rev ((k, v) :: acc))) r4
                              else PErr
                          | [] => PErr
                          end
                      | bad => bad
                      end
                    else PErr
                | [] => PErr
                end
            | PErr => PErr
            | PFuel => PFuel
            end
          else PErr
      | [] => PErr
      end
  end.

Definition fuel_for (s : jsstring) : nat := 2 + 2 * List.length s.

(** The whole text must be one value, surrounded by JSON whitespace only. *)
Definition run (s : jsstring) : PRes Tree :=
  match parse_value (fuel_for s) s with
  | POk v rest =>
      match skip_ws rest with
      | [] => POk v []
      | _ :: _ => PErr
      end
  | bad => bad
  end.

(** The value that the parse tree denotes.  The members of an object are
    defined in the order of the text, so that of two members with one key
    the later one gives the value. *)
Fixpoint build (w : Tree) : JsValue :=
  match w with
  | TNull => JNull
  | TBool b => JBool b
  | TNum lexeme => JNum lexeme
  | TStr s => JStr s
  | TArr elems => JArr (List.map build elems)
  | TObj members =>
      JObj (fold_left (fun props m => obj_set props (fst m) (build (snd m)))
                      members [])
  end.

End Json.

(** Induction on parse trees, through the lists of elements and members. *)
Section TreeInduction.

Import Json.

Variable P : Tree -> Prop.
Hypothesis HNull : P TNull.
Hypothesis HBool : forall b, P (TBool b).
Hypothesis HNum : forall l, P (TNum l).
Hypothesis HStr : forall s, P (TStr s).
Hypothesis HArr : forall elems, Forall P elems -> P (TArr elems).
Hypothesis HObj :
  forall members, Forall (fun m => P (snd m)) members -> P (TObj members).

Fixpoint Tree_nested_ind (w : Tree) : P w :=
  match w with
  | TNull => HNull
  | TBool b => HBool b
  | TNum l => HNum l
  | TStr s => HStr s
  | TArr elems =>
      HArr ((fix go (l : list Tree) : Forall P l :=
               match l with
               | [] => Forall_nil P
               | x :: r => Forall_cons x (Tree_nested_ind x) (go r)
               end) elems)
  | TObj members =>
      HObj ((fix go (l : list (jsstring * Tree))
               : Forall (fun m => P (snd m)) l :=
               match l with
               | [] => Forall_nil _
               | m :: r => Forall_cons m (Tree_nested_ind (snd m)) (go r)
               end) members)
  end.

End TreeInduction.

(** [JSON.parse]: [None] is the [SyntaxError]. *)
Definition JSON_parse (s : jsstring) : option JsValue :=
  match Json.run s with
  | Json.POk w _ => Some (Json.build w)
  | _ => None
  end.

(* ================================================================== *)
(** ** Abrupt completions *)

Inductive JsError : Type :=
| TypeError        (* a property of null or undefined, or a call of a non-function *)
| ModelError.      (* the model call rejects, or the response has no text *)

Inductive Completion (A : Type) : Type :=
| Normal (a : A)
| Throw (e : JsError).
Arguments Throw {A}.

Definition bind {A B : Type} (c : Completion A) (k : A -> Completion B)
  : Completion B :=
  match c with
  | Normal a => k a
  | Throw e => Throw e
  end.

Notation "x <- c ;; k" := (bind c (fun x => k))
  (at level 61, c at next level, right associativity).

(* ================================================================== *)
(** ** Lines 44-67: the prompt *)

Definition nl : jsstring := [10].

Definition prompt_head : jsstring :=
  nl ++
  js "    Generate 3 recipes in valid JSON format based on these available ingredients:" ++ nl ++
  js "    ".

Definition prompt_tail : jsstring :=
  js "." ++ nl ++
  nl ++
  js "    Each recipe must follow this exact TypeScript interface:" ++ nl ++
  js "    [" ++ nl ++
  js "      {" ++ nl ++
  jsq "        'id': 'string'," ++ nl ++
  jsq "        'name': 'string'," ++ nl ++
  jsq "        'calories': number," ++ nl ++
  jsq "        'protein': number," ++ nl ++
  jsq "        'carbs': number," ++ nl ++
  jsq "        'fats': number," ++ nl ++
  jsq "        'servings': number," ++ nl ++
  jsq "        'cookTime': number," ++ nl ++
  jsq "        'difficulty': 'Easy' | 'Medium' | 'Hard'," ++ nl ++
  jsq "        'ingredients': ['string']," ++ nl ++
  jsq "        'instructions': ['string']," ++ nl ++
  jsq "        'tags': ['string']," ++ nl ++
  jsq "        'pantryMatch': number" ++ nl ++
  js "      }" ++ nl ++
  js "    ]" ++ nl ++
  js "    Output *only pure JSON* (no markdown, explanations, or extra text)." ++ nl ++
  js "    ".

(** [availableIngredients || "no ingredients"]: the empty string is the only
    falsy string. *)
Definition ingredientsOrDefault (availableIngredients : jsstring) : jsstring :=
  match availableIngredients with
  | [] => js "no ingredients"
  | _ :: _ => availableIngredients
  end.

Definition buildPrompt (availableIngredients : jsstring) : jsstring :=
  prompt_head ++ ingredientsOrDefault availableIngredients ++ prompt_tail.

(* ================================================================== *)
(** ** Lines 90-96: the diet filter *)

(** [r.tags].  Reading a property of [null] throws.  Of the values that
    [JSON.parse] builds only an object can have a property of this name: no
    prototype defines it, so every other value gives [undefined] ([None]). *)
Definition get_tags (r : JsValue) : Completion (option JsValue) :=
  match r with
  | JNull => Throw TypeError
  | JObj props => Normal (obj_get props (js "tags"))
  | _ => Normal None
  end.

(** [SameValueZero] of an array element and a string. *)
Definition same_string (tag : jsstring) (v : JsValue) : bool :=
  match v with
  | JStr s => JsString.eqb s tag
  | _ => false
  end.

(** [tags.includes(tag)]: [Array.prototype.includes] on an array,
    [String.prototype.includes] on a string; on every other value
    [includes] is not a function (or the receiver is [undefined] or
    [null]), and the call throws. *)
Definition call_includes (tags : option JsValue) (tag : jsstring)
  : Completion bool :=
  match tags with
  | Some (JArr elems) => Normal (existsb (same_string tag) elems)
  | Some (JStr s) => Normal (JsString.includes tag s)
  | _ => Throw TypeError
  end.

Definition tagsInclude (r : JsValue) (tag : jsstring) : Completion bool :=
  tags <- get_tags r ;; call_includes tags tag.

(** The callback of line 94; [||] evaluates its right operand only when the
    left one is false. *)
Definition keepRecipe (r : JsValue) : Completion bool :=
  b <- tagsInclude r (js "Vegetarian") ;;
  if b then Normal true else tagsInclude r (js "Vegan").

(** [Array.prototype.filter]: the callback runs on the elements in order,
    and the first throw ends the call. *)
Fixpoint filterM (f : JsValue -> Completion bool) (l : list JsValue)
  : Completion (list JsValue) :=
  match l with
  | [] => Normal []
  | x :: rest =>
      b <- f x ;;
      kept <- filterM f rest ;;
      Normal (if b then x :: kept else kept)
  end.

(** [parsed.filter(...)]: only an array has a callable [filter]. *)
Definition call_filter (parsed : JsValue) (f : JsValue -> Completion bool)
  : Completion JsValue :=
  match parsed with
  | JArr elems => kept <- filterM f elems ;; Normal (JArr kept)
  | _ => Throw TypeError
  end.

Definition isRestricted (dietType : jsstring) : bool :=
  JsString.eqb dietType (js "vegetarian") || JsString.eqb dietType (js "vegan").

Definition dietFilter (dietType : jsstring) (parsed : JsValue)
  : Completion JsValue :=
  if isRestricted dietType then call_filter parsed keepRecipe
  else Normal parsed.

(* ================================================================== *)
(** ** Lines 74-96 as one function: sanitize, parse, filter *)

Inductive Outcome : Type :=
| ParseError (cleanText : jsstring)
| Fault (e : JsError)
| Filtered (filteredRecipes : JsValue).

Definition interpret (rawText dietType : jsstring) : Outcome :=
  let cleanText := sanitize rawText in
  match JSON_parse cleanText with
  | None => ParseError cleanText
  | Some parsed =>
      match dietFilter dietType parsed with
      | Normal filteredRecipes => Filtered filteredRecipes
      | Throw e => Fault e
      end
  end.

(* ================================================================== *)
(** ** The component state and [generateRecipes] *)

(** What the template literal of line 101 interpolates. *)
Inductive Interpolated : Type :=
| INumber (n : nat)
| IValue (v : JsValue)
| IUndefined.

(** [ToString] of a value built by [JSON.parse] throws exactly when an
    object with an own [toString] property is reached: that property is
    not callable, and the inherited [valueOf] returns the object itself. *)
Fixpoint toString_throws (v : JsValue) : bool :=
  match v with
  | JObj props => existsb (fun kv => JsString.eqb (fst kv) (js "toString")) props
  | JArr elems => existsb toString_throws elems
  | _ => false
  end.

(** [`${filteredRecipes.length}`] *)
Definition interpolate_length (filteredRecipes : JsValue)
  : Completion Interpolated :=
  match filteredRecipes with
  | JNull => Throw TypeError
  | JArr elems => Normal (INumber (List.length elems))
  | JStr s => Normal (INumber (List.length s))
  | JObj props =>
      match obj_get props (js "length") with
      | Some v => if toString_throws v then Throw TypeError else Normal (IValue v)
      | None => Normal IUndefined
      end
  | _ => Normal IUndefined
  end.

Inductive Toast : Type :=
| ToastInvalidJson                     (* "AI returned invalid JSON. Please try again." *)
| ToastGenerated (found : Interpolated)  (* "Found ... new recipes matching your preferences." *)
| ToastFailed.                         (* "Failed to generate recipes. Please try again later." *)

Inductive LogEntry : Type :=
| LogParseError (cleanText : jsstring)   (* console.error of line 80 *)
| LogGenerateError (e : JsError).        (* console.error of line 104 *)

Record State : Type := mkState {
  recipes : JsValue;
  isGenerating : bool;
  toasts : list Toast;
  console : list LogEntry
}.

(** [useState<Recipe[]>([])], [useState(false)] *)
Definition initialState : State :=
  {| recipes := JArr []; isGenerating := false; toasts := []; console := [] |}.

Definition setRecipes (v : JsValue) (st : State) : State :=
  {| recipes := v; isGenerating := isGenerating st;
     toasts := toasts st; console := console st |}.

Definition setIsGenerating (b : bool) (st : State) : State :=
  {| recipes := recipes st; isGenerating := b;
     toasts := toasts st; console := console st |}.

Definition toast (t : Toast) (st : State) : State :=
  {| recipes := recipes st; isGenerating := isGenerating st;
     toasts := toasts st ++ [t]; console := console st |}.

Definition console_error (e : LogEntry) (st : State) : State :=
  {| recipes := recipes st; isGenerating := isGenerating st;
     toasts := toasts st; console := console st ++ [e] |}.

(** Modelled from the spec: the declaration of [UserProfile]
    ([./OnboardingFlow]) is not among the sources; section 3 of the
    specification gives it a diet-type classification and a free-text
    pantry string, the two fields that the component reads. *)
Record UserProfile : Type := mkProfile {
  dietType : jsstring;
  pantryItems : jsstring
}.

(** The [catch] block of lines 103-109 and the [finally] block. *)
Definition onError (e : JsError) (st : State) : State :=
  toast ToastFailed (console_error (LogGenerateError e) st).

Definition finally (st : State) : State := setIsGenerating false st.

(** [generateRecipes].  [model prompt] is the awaited
    [model.generateContent(prompt)] followed by [result.response.text()]:
    the text of the answer, or a rejection. *)
Definition generateRecipes (model : jsstring -> Completion jsstring)
    (profile : UserProfile) (availableIngredients : jsstring) (st : State)
  : State :=
  let st := setIsGenerating true st in
  let prompt := buildPrompt availableIngredients in
  match model prompt with
  | Throw e => finally (onError e st)
  | Normal text =>
      match interpret text (dietType profile) with
      | ParseError cleanText =>
          finally
            (setIsGenerating false
               (toast ToastInvalidJson
                  (console_error (LogParseError cleanText) st)))
      | Fault e => finally (onError e st)
      | Filtered filteredRecipes =>
          let st := setRecipes filteredRecipes st in
          match interpolate_length filteredRecipes with
          | Normal found => finally (toast (ToastGenerated found) st)
          | Throw e => finally (onError e st)
          end
      end
  end.

(* ================================================================== *)
(** ** Vocabulary of the properties *)

(** The text of a fenced answer around [inner]. *)
Definition fenced (inner : jsstring) : jsstring :=
  fence_json ++ inner ++ fence.

(** The [tags] field of a record, when it has one. *)
Definition own_tags (r : JsValue) : option JsValue :=
  match r with
  | JObj props => obj_get props (js "tags")
  | _ => None
  end.

Definition isArray (v : option JsValue) : bool :=
  match v with
  | Some (JArr _) => true
  | _ => false
  end.

Definition isString (v : option JsValue) : bool :=
  match v with
  | Some (JStr _) => true
  | _ => false
  end.

(** A record in the sense of the [Recipe] interface, as far as the filter
    looks at it: its [tags] field is an array. *)
Definition hasTagArray (r : JsValue) : Prop := isArray (own_tags r) = true.

(** The tag array of [r] has an element that is the string [tag], code
    unit by code unit. *)
Definition Tagged (tag : jsstring) (r : JsValue) : Prop :=
  exists elems, own_tags r = Some (JArr elems) /\ In (JStr tag) elems.

Definition hasTag (tag : jsstring) (r : JsValue) : bool :=
  match own_tags r with
  | Some (JArr elems) => existsb (same_string tag) elems
  | _ => false
  end.

Definition vegetarianOrVegan (r : JsValue) : bool :=
  hasTag (js "Vegetarian") r || hasTag (js "Vegan") r.

(** A JSON string literal whose characters stand for themselves: no
    quotation mark, no reverse solidus, no control character. *)
Definition isPlainChar (c : N) : bool :=
  negb (c <? 32) && negb (c =? 34) && negb (c =? 92).

(** The number of code units in the strings and keys of a parse tree and
    of a value. *)
Fixpoint tree_size (w : Json.Tree) : nat :=
  match w with
  | Json.TStr s => List.length s
  | Json.TArr elems => list_sum (List.map tree_size elems)
  | Json.TObj members =>
      list_sum (List.map (fun m => (List.length (fst m) + tree_size (snd m))%nat)
                         members)
  | _ => 0%nat
  end.

Fixpoint value_size (v : JsValue) : nat :=
  match v with
  | JStr s => List.length s
  | JArr elems => list_sum (List.map value_size elems)
  | JObj props =>
      list_sum (List.map (fun p => (List.length (fst p) + value_size (snd p))%nat)
                         props)
  | _ => 0%nat
  end.

Definition members_size (members : list (jsstring * Json.Tree)) : nat :=
  list_sum (List.map (fun m => (List.length (fst m) + tree_size (snd m))%nat)
                     members).

Definition props_size (props : list (jsstring * JsValue)) : nat :=
  list_sum (List.map (fun p => (List.length (fst p) + value_size (snd p))%nat)
                     props).

(** No object of the text has two members with the same key. *)
Fixpoint distinct (keys : list jsstring) : bool :=
  match keys with
  | [] => true
  | k :: rest => negb (existsb (JsString.eqb k) rest) && distinct rest
  end.

Fixpoint distinct_keys (w : Json.Tree) : bool :=
  match w with
  | Json.TArr elems => forallb distinct_keys elems
  | Json.TObj members =>
      distinct (List.map fst members) &&
      forallb (fun m => distinct_keys (snd m)) members
  | _ => true
  end.

(** What may follow a value inside a valid text: white space, a comma, a
    closing bracket or brace, or the end of the text. *)
Definition follow_ok (b : jsstring) : bool :=
  match b with
  | [] => true
  | c :: _ => Json.isJsonWs c || (c =? 44) || (c =? 93) || (c =? 125)
  end.

(** The first code unit of [b], if there is one, satisfies [P]. *)
Definition head_is (P : N -> bool) (b : jsstring) : bool :=
  match b with
  | [] => false
  | c :: _ => P c
  end.

Definition isDot (c : N) : bool := c =? 46.
Definition isExp (c : N) : bool := (c =? 101) || (c =? 69).

(** A code unit of a number or of a literal name: neither removed by
    [trim] nor a backtick. *)
Definition lex_char (c : N) : Prop := isTrimChar c = false /\ c <> 96.

Definition all_ws (l : jsstring) : Prop :=
  Forall (fun c => Json.isJsonWs c = true) l.

(** The last code unit of [a] is not one that [trim] removes. *)
Definition ends_ok (a : jsstring) : Prop :=
  exists a0 q, a = a0 ++ [q] /\ isTrimChar q = false.

(** The sanitize step in the words of the specification: a marker at the
    start and a marker at the end of the text are removed, and what lies
    between them is kept as it is. *)
Definition stripLeading (t : jsstring) : jsstring :=
  if startsWith fence_json t then skipn 7 t
  else if startsWith fence t then skipn 3 t
  else t.

Definition stripTrailing (t : jsstring) : jsstring :=
  if startsWith (rev fence) (rev t) then firstn (List.length t - 3) t else t.

Definition sanitize_spec (text : jsstring) : jsstring :=
  trim (stripTrailing (stripLeading (trim text))).

(** Texts and records of the examples. *)
Definition record (tags : list string) : JsValue :=
  JObj [(js "tags", JArr (List.map (fun t => JStr (js t)) tags))].

Definition two_records : jsstring :=
  jsq "[{'tags':['Vegan']},{'tags':['Meat']}]".

Definition interior_fence : jsstring := jsq "['a```b']".

Definition duplicate_key : jsstring := jsq "{'k':'```','k':1}".

Definition string_tags : jsstring := jsq "[{'tags':'Vegan'}]".

Definition mixed_tags : jsstring :=
  jsq "[{'tags':['Vegetarian']},{'tags':['vegan']},{'tags':['Keto','Vegan']}]".

Definition missing_tags : jsstring :=
  jsq "[{'tags':['Vegan']},{'name':'Soup'}]".

(** The selection of the elements of [l] at the positions [idxs]. *)
Definition select (l : list JsValue) (idxs : list nat) : list JsValue :=
  List.map (fun i => nth i l JNull) idxs.

(* ================================================================== *)
(** ** Lines 116-123, 173-178 and 219: the badges of a recipe card *)

(** [String.prototype.toLowerCase] follows the Unicode case mappings, a
    table that is not part of the sources.  It is a parameter
    [toLowerCase] of the functions below, and the properties assume of it
    only what it does on ASCII text. *)
Definition asciiLower (c : N) : N :=
  if (65 <=? c) && (c <=? 90) then c + 32 else c.

Definition asciiUpper (c : N) : N :=
  if (97 <=? c) && (c <=? 122) then c - 32 else c.

Definition isAscii (s : jsstring) : bool := forallb (fun c => c <? 128) s.

Definition lowers_ascii (toLowerCase : jsstring -> jsstring) : Prop :=
  forall s, isAscii s = true -> toLowerCase s = List.map asciiLower s.

(** [getDifficultyColor]; the [switch] compares with [===]. *)
Definition getDifficultyColor (toLowerCase : jsstring -> jsstring)
    (difficulty : jsstring) : jsstring :=
  let d := toLowerCase difficulty in
  if JsString.eqb d (js "easy") then js "bg-success-green"
  else if JsString.eqb d (js "medium") then js "bg-food-orange"
  else if JsString.eqb d (js "hard") then js "bg-food-red"
  else js "bg-muted".

(** [recipe.difficulty], read as [r.tags] is. *)
Definition get_difficulty (recipe : JsValue) : Completion (option JsValue) :=
  match recipe with
  | JNull => Throw TypeError
  | JObj props => Normal (obj_get props (js "difficulty"))
  | _ => Normal None
  end.

(** The call [getDifficultyColor(recipe.difficulty)] at run time: only a
    string has a callable [toLowerCase]. *)
Definition call_getDifficultyColor (toLowerCase : jsstring -> jsstring)
    (difficulty : option JsValue) : Completion jsstring :=
  match difficulty with
  | Some (JStr s) => Normal (getDifficultyColor toLowerCase s)
  | _ => Throw TypeError
  end.

(** The class name of the badge, line 175. *)
Definition badgeClass (toLowerCase : jsstring -> jsstring) (recipe : JsValue)
  : Completion jsstring :=
  difficulty <- get_difficulty recipe ;;
  color <- call_getDifficultyColor toLowerCase difficulty ;;
  Normal (color ++ js " text-white").

Definition own_difficulty (r : JsValue) : option JsValue :=
  match r with
  | JObj props => obj_get props (js "difficulty")
  | _ => None
  end.



(** An ASCII letter. *)
Definition isLetter (c : N) : bool :=
  ((65 <=? c) && (c <=? 90)) || ((97 <=? c) && (c <=? 122)).

(** The records on which the callback of the filter answers [true]. *)
Definition keeps (r : JsValue) : bool :=
  match keepRecipe r with
  | Normal true => true
  | _ => false
  end.

(* ================================================================== *)
(** ** Tactics *)

Ltac char_is H := apply N.eqb_eq in H; subst.

Ltac norm_app := repeat (rewrite <- ?app_assoc; cbn [app]).

Ltac len_tac :=
  repeat first [ rewrite length_app in * | progress cbn [List.length] in * ]; lia.

(* ================================================================== *)
(** ** The definitions on small inputs *)

Example sanitize_typical_answer :
  sanitize (fence_json ++ nl ++ two_records ++ nl ++ fence ++ nl) = two_records.
Proof. reflexivity. Qed.

Example sanitize_bare_fence :
  sanitize (fence ++ nl ++ js "[1]" ++ nl ++ fence) = js "[1]".
Proof. reflexivity. Qed.

Example trim_unicode_space : trim ([160; 65279] ++ js "x y" ++ [8232; 9]) = js "x y".
Proof. reflexivity. Qed.

Example parse_nested :
  JSON_parse (jsq "{'a': [true, false, null], 'n': -0.5E+2, 's': 'xA\n'}") =
  Some (JObj [(js "a", JArr [JBool true; JBool false; JNull]);
              (js "n", JNum (js "-0.5E+2"));
              (js "s", JStr (js "xA" ++ [10]))]).
Proof. reflexivity. Qed.

Example parse_duplicate_key :
  JSON_parse (jsq "{'a':1,'b':2,'a':3}") =
  Some (JObj [(js "a", JNum (js "3")); (js "b", JNum (js "2"))]).
Proof. reflexivity. Qed.

Example parse_rejects :
  List.map JSON_parse
    [js ""; js "[1,]"; js "01"; js "1."; js "[] x"; jsq "{a:1}";
     jsq "['\x']"; js "tru"; jsq "{'a':1,}"; js "Here are your recipes"] =
  repeat None 10.
Proof. reflexivity. Qed.

Example filter_callback_cases :
  List.map keepRecipe
    [record ["Vegan"]; record ["vegan"]; JObj [(js "tags", JStr (js "Vegan-ish"))];
     JObj []; JNull; JObj [(js "tags", JNull)]; JStr (js "tags")] =
  [Normal true; Normal false; Normal true;
   Throw TypeError; Throw TypeError; Throw TypeError; Throw TypeError].
Proof. reflexivity. Qed.

Example generate_model_failure :
  generateRecipes (fun _ => Throw ModelError) (mkProfile (js "vegan") []) []
    initialState =
  {| recipes := JArr []; isGenerating := false; toasts := [ToastFailed];
     console := [LogGenerateError ModelError] |}.
Proof. reflexivity. Qed.

(* ================================================================== *)
(** ** Strings: prefixes and occurrences *)

Section StringFacts.

Lemma eqb_refl (a : jsstring) : JsString.eqb a a = true.
Proof. induction a as [|x a IH]; simpl; [reflexivity|]. now rewrite N.eqb_refl. Qed.

Lemma eqb_eq (a b : jsstring) : JsString.eqb a b = true <-> a = b.
Proof.
  split; [|intros ->; apply eqb_refl].
  revert b; induction a as [|x a IH]; intros [|y b]; simpl; try discriminate; auto.
  intros H. apply andb_true_iff in H as [H1 H2].
  apply N.eqb_eq in H1. f_equal; auto.
Qed.

Lemma startsWith_app (p b : jsstring) : startsWith p (p ++ b) = true.
Proof. induction p as [|x p IH]; simpl; [reflexivity|]. now rewrite N.eqb_refl. Qed.

Lemma startsWith_inv (p s : jsstring) :
  startsWith p s = true -> exists r, s = p ++ r.
Proof.
  revert s; induction p as [|x p IH]; intros s H.
  - now exists s.
  - destruct s as [|y s]; simpl in H; [discriminate|].
    apply andb_true_iff in H as [H1 H2]. apply N.eqb_eq in H1. subst y.
    destruct (IH _ H2) as [r ->]. now exists r.
Qed.

Lemma startsWith_prefix (p q s : jsstring) :
  startsWith (p ++ q) s = true -> startsWith p s = true.
Proof.
  intros H. apply startsWith_inv in H as [r ->].
  rewrite <- app_assoc. apply startsWith_app.
Qed.

(** Appending code units that do not occur in [p] cannot complete a match
    of [p] that starts inside [t]. *)
Lemma startsWith_app_foreign (p t f : jsstring) :
  p <> [] ->
  (forall x y, In x p -> In y f -> x <> y) ->
  startsWith p (t ++ f) = startsWith p t.
Proof.
  revert t; induction p as [|x p IH]; intros t Hne Hd; [congruence|].
  destruct t as [|c t]; simpl.
  - destruct f as [|y f]; [reflexivity|].
    replace (x =? y) with false; [reflexivity|].
    symmetry. apply N.eqb_neq. apply Hd; simpl; auto.
  - destruct p as [|x' p].
    + reflexivity.
    + rewrite IH; [reflexivity|discriminate|].
      intros a b Ha Hb. apply Hd; simpl in *; auto.
Qed.

Lemma includes_cons (p : jsstring) (c : N) (s : jsstring) :
  includes p (c :: s) = startsWith p (c :: s) || includes p s.
Proof. reflexivity. Qed.

Lemma includes_iff (p s : jsstring) :
  includes p s = true <-> exists a b, s = a ++ p ++ b.
Proof.
  split.
  - induction s as [|c s IH]; simpl; intros H.
    + rewrite orb_false_r in H. apply startsWith_inv in H as [r Hr].
      now exists [], r.
    + apply orb_true_iff in H as [H|H].
      * apply startsWith_inv in H as [r Hr]. now exists [], r.
      * destruct (IH H) as (a & b & ->). now exists (c :: a), b.
  - intros (a & b & ->). induction a as [|c a IH].
    + simpl. destruct (p ++ b) eqn:E.
      * destruct p; [reflexivity|discriminate].
      * rewrite includes_cons, <- E, startsWith_app. reflexivity.
    + simpl app. rewrite includes_cons, IH. apply orb_true_r.
Qed.

Lemma includes_middle (a p b : jsstring) : includes p (a ++ p ++ b) = true.
Proof. apply includes_iff. now exists a, b. Qed.

Lemma trimStart_suffix (s : jsstring) : exists w, s = w ++ trimStart s.
Proof.
  induction s as [|c s [w IH]]; simpl.
  - now exists [].
  - destruct (isTrimChar c).
    + exists (c :: w). simpl. now f_equal.
    + now exists [].
Qed.

Lemma trimEnd_prefix (s : jsstring) : exists w, s = trimEnd s ++ w.
Proof.
  induction s as [|c s [w IH]]; simpl.
  - now exists [].
  - destruct (trimEnd s) as [|d r].
    + destruct (isTrimChar c).
      * now exists (c :: s).
      * exists w. simpl. now f_equal.
    + exists w. simpl. now f_equal.
Qed.

Lemma trim_infix (s : jsstring) : exists a b, s = a ++ trim s ++ b.
Proof.
  unfold trim. destruct (trimStart_suffix s) as [a Ha].
  destruct (trimEnd_prefix (trimStart s)) as [b Hb].
  exists a, b. now rewrite <- Hb.
Qed.

Lemma includes_trim (p s : jsstring) :
  includes p s = false -> includes p (trim s) = false.
Proof.
  intros H. destruct (includes p (trim s)) eqn:E; [|reflexivity].
  apply includes_iff in E as (a & b & E).
  destruct (trim_infix s) as (a' & b' & Hs).
  assert (includes p s = true); [|congruence].
  apply includes_iff. exists (a' ++ a), (b ++ b').
  rewrite Hs, E. now rewrite <- !app_assoc.
Qed.

End StringFacts.

(* ================================================================== *)
(** ** The fence replacement *)

Section Fences.

Local Arguments N.eqb : simpl never.

Ltac char_eq x y := destruct (N.eqb_spec x y); [try congruence|try reflexivity].

Lemma fence_eq : fence = [96; 96; 96].
Proof. reflexivity. Qed.

Lemma fence_json_eq : fence_json = [96; 96; 96; 106; 115; 111; 110].
Proof. reflexivity. Qed.

Lemma replace_0_cons (c : N) (r : jsstring) :
  replaceFences 0 (c :: r) =
  if startsWith fence_json (c :: r) then replaceFences 6 r
  else if startsWith fence (c :: r) then replaceFences 2 r
  else c :: replaceFences 0 r.
Proof. reflexivity. Qed.

Lemma fence_json_fence (s : jsstring) :
  startsWith fence s = false -> startsWith fence_json s = false.
Proof.
  intros H. destruct (startsWith fence_json s) eqn:E; [|reflexivity].
  change fence_json with (fence ++ js "json") in E.
  apply startsWith_prefix in E. congruence.
Qed.

(** A code unit other than the backtick starts no match. *)
Lemma startsWith_fence_other (c : N) (r : jsstring) :
  c <> 96 -> startsWith fence (c :: r) = false.
Proof.
  intros H. rewrite fence_eq. simpl. char_eq 96 c.
Qed.

Lemma replace_other (c : N) (r : jsstring) :
  c <> 96 -> replaceFences 0 (c :: r) = c :: replaceFences 0 r.
Proof.
  intros H. rewrite replace_0_cons.
  now rewrite (fence_json_fence _ (startsWith_fence_other r H)),
    (startsWith_fence_other r H).
Qed.

Lemma replace_no_match (c : N) (r : jsstring) :
  startsWith fence (c :: r) = false ->
  replaceFences 0 (c :: r) = c :: replaceFences 0 r.
Proof.
  intros H. rewrite replace_0_cons. now rewrite (fence_json_fence _ H), H.
Qed.

(** Two backticks at the head of the output come from two backticks at the
    head of the input. *)
Lemma replace_head_pair (r : jsstring) :
  startsWith [96; 96] r = false ->
  startsWith [96; 96] (replaceFences 0 r) = false.
Proof.
  destruct r as [|c r]; [reflexivity|].
  destruct (N.eq_dec c 96) as [->|Hc].
  - destruct r as [|d r]; [reflexivity|].
    destruct (N.eq_dec d 96) as [->|Hd];
      [simpl; rewrite ?N.eqb_refl; discriminate|].
    intros _. rewrite replace_no_match.
    + rewrite (replace_other r Hd). simpl. rewrite ?N.eqb_refl. char_eq 96 d.
    + rewrite fence_eq. simpl. rewrite ?N.eqb_refl. char_eq 96 d.
  - intros _. rewrite (replace_other r Hc). simpl. char_eq 96 c.
Qed.

(** No run of three backticks is left, whatever the scanner still has to
    drop. *)
Lemma replace_no_fence (s : jsstring) (k : nat) :
  includes fence (replaceFences k s) = false.
Proof.
  revert k; induction s as [|c r IH]; intros k; [reflexivity|].
  destruct k as [|k]; [|apply IH].
  rewrite replace_0_cons.
  destruct (startsWith fence_json (c :: r)); [apply IH|].
  destruct (startsWith fence (c :: r)) eqn:E; [apply IH|].
  rewrite includes_cons, IH, orb_false_r.
  rewrite fence_eq in *. simpl in *.
  destruct (N.eqb_spec 96 c); [|reflexivity]. simpl in *.
  apply (replace_head_pair r). exact E.
Qed.

(** Text without three backticks in a row is copied. *)
Lemma replace_fence_free (s : jsstring) :
  includes fence s = false -> replaceFences 0 s = s.
Proof.
  induction s as [|c r IH]; [reflexivity|].
  rewrite includes_cons. intros H. apply orb_false_iff in H as [H1 H2].
  rewrite (replace_no_match _ _ H1). now rewrite IH.
Qed.

Lemma startsWith_app_cancel (p q s : jsstring) :
  startsWith (p ++ q) (p ++ s) = startsWith q s.
Proof. induction p as [|x p IH]; simpl; [reflexivity|]. now rewrite N.eqb_refl. Qed.

Lemma startsWith_length (p s : jsstring) :
  startsWith p s = true -> (List.length p <= List.length s)%nat.
Proof.
  intros H. apply startsWith_inv in H as [r ->]. rewrite length_app. lia.
Qed.

(** A closing fence behind the text changes nothing: the backticks it adds
    to a trailing run are dropped three at a time. *)
Lemma replace_closing_fence (t : jsstring) (k : nat) :
  (k <= List.length t)%nat ->
  replaceFences k (t ++ fence) = replaceFences k t.
Proof.
  revert k; induction t as [|c r IH]; intros k Hk.
  - replace k with 0%nat by (simpl in Hk; lia). reflexivity.
  - destruct k as [|k]; [|simpl in *; apply IH; lia].
    simpl app. rewrite !replace_0_cons.
    destruct (startsWith fence_json (c :: r)) eqn:EJ.
    + pose proof (startsWith_length _ _ EJ) as HL.
      apply startsWith_inv in EJ as [r' E].
      change (c :: r ++ fence) with ((c :: r) ++ fence).
      rewrite E, <- app_assoc, startsWith_app.
      apply IH. rewrite fence_json_eq in HL. simpl in HL. lia.
    + destruct (startsWith fence (c :: r)) eqn:EF.
      * pose proof (startsWith_length _ _ EF) as HL.
        pose proof EF as EF'. apply startsWith_inv in EF' as [r' E].
        change (c :: r ++ fence) with ((c :: r) ++ fence).
        assert (HJ : startsWith fence_json ((c :: r) ++ fence) = false).
        { rewrite <- EJ, E, <- app_assoc.
          change fence_json with (fence ++ js "json").
          rewrite !startsWith_app_cancel.
          apply startsWith_app_foreign; [discriminate|].
          intros x y Hx Hy. rewrite fence_eq in Hy. simpl in Hx, Hy.
          intuition (subst; discriminate). }
        rewrite HJ, E, <- app_assoc, startsWith_app.
        apply IH. rewrite fence_eq in HL. simpl in HL. lia.
      * destruct (N.eq_dec c 96) as [->|Hc].
        2:{ rewrite (fence_json_fence _ (startsWith_fence_other (r ++ fence) Hc)),
              (startsWith_fence_other (r ++ fence) Hc).
            f_equal. apply IH. lia. }
        destruct r as [|d r]; [reflexivity|].
        destruct (N.eq_dec d 96) as [->|Hd].
        2:{ assert (HF : startsWith fence (96 :: (d :: r) ++ fence) = false).
            { rewrite fence_eq. simpl. rewrite ?N.eqb_refl. char_eq 96 d. }
            rewrite (fence_json_fence _ HF), HF. f_equal. apply IH. simpl. lia. }
        destruct r as [|e r]; [reflexivity|].
        destruct (N.eq_dec e 96) as [->|He];
          [rewrite fence_eq in EF; simpl in EF; rewrite ?N.eqb_refl in EF;
           discriminate|].
        assert (HF : startsWith fence (96 :: (96 :: e :: r) ++ fence) = false).
        { rewrite fence_eq. simpl. rewrite ?N.eqb_refl. char_eq 96 e. }
        rewrite (fence_json_fence _ HF), HF. f_equal. apply IH. simpl. lia.
Qed.

Lemma replace_opening_fence (s : jsstring) :
  replaceFences 0 (fence_json ++ s) = replaceFences 0 s.
Proof. reflexivity. Qed.

Lemma removeFences_fenced (t : jsstring) :
  removeFences (fenced t) = removeFences t.
Proof.
  unfold removeFences, fenced. rewrite replace_opening_fence.
  apply replace_closing_fence. lia.
Qed.

Lemma sanitize_no_fence (t : jsstring) : includes fence (sanitize t) = false.
Proof. apply includes_trim, replace_no_fence. Qed.

End Fences.

(* ================================================================== *)
(** ** [JSON.parse]: the fuel is enough *)

Section JsonFuel.

Import Json.

Local Arguments parse_number : simpl never.
Local Arguments parse_literal : simpl never.

Local Arguments N.eqb : simpl never.
Local Arguments N.ltb : simpl never.
Local Arguments N.leb : simpl never.

Local Abbreviation len := (@List.length N).

Lemma skip_ws_length (s : jsstring) : (len (skip_ws s) <= len s)%nat.
Proof.
  induction s as [|c s IH]; simpl; [lia|].
  destruct (isJsonWs c); simpl; lia.
Qed.

Lemma parse_string_shorter_aux (n : nat) :
  forall s t r, (len s <= n)%nat -> parse_string s = POk t r ->
                (len r < len s)%nat.
Proof.
  induction n as [|n IH]; intros s t r Hn H.
  - destruct s; [discriminate|simpl in Hn; lia].
  - destruct s as [|c s]; [discriminate|]. simpl in H, Hn.
    destruct (c =? 34); [inversion H; subst; simpl; lia|].
    destruct (c =? 92).
    + destruct s as [|e s]; [discriminate|].
      destruct (e =? 117).
      * destruct s as [|h1 [|h2 [|h3 [|h4 s]]]]; try discriminate.
        destruct (hex4 h1 h2 h3 h4); [|discriminate].
        destruct (parse_string s) eqn:E; try discriminate.
        inversion H; subst. apply IH in E; simpl in *; lia.
      * destruct (escape e); [|discriminate].
        destruct (parse_string s) eqn:E; try discriminate.
        inversion H; subst. apply IH in E; simpl in *; lia.
    + destruct (c <? 32); [discriminate|].
      destruct (parse_string s) eqn:E; try discriminate.
      inversion H; subst. apply IH in E; simpl in *; lia.
Qed.

Lemma parse_string_shorter (s t r : jsstring) :
  parse_string s = POk t r -> (len r < len s)%nat.
Proof. apply (parse_string_shorter_aux (n := len s)). lia. Qed.

Lemma parse_string_no_fuel_aux (n : nat) :
  forall s, (len s <= n)%nat -> parse_string s <> PFuel.
Proof.
  induction n as [|n IH]; intros s Hn.
  - destruct s; [discriminate|simpl in Hn; lia].
  - destruct s as [|c s]; [discriminate|]. simpl in *.
    destruct (c =? 34); [discriminate|].
    destruct (c =? 92).
    + destruct s as [|e s]; [discriminate|].
      destruct (e =? 117).
      * destruct s as [|h1 [|h2 [|h3 [|h4 s]]]]; try discriminate.
        destruct (hex4 h1 h2 h3 h4); [|discriminate].
        assert (E : parse_string s <> PFuel) by (apply IH; simpl in *; lia).
        destruct (parse_string s); congruence.
      * destruct (escape e); [|discriminate].
        assert (E : parse_string s <> PFuel) by (apply IH; simpl in *; lia).
        destruct (parse_string s); congruence.
    + destruct (c <? 32); [discriminate|].
      assert (E : parse_string s <> PFuel) by (apply IH; simpl in *; lia).
      destruct (parse_string s); congruence.
Qed.

Lemma parse_string_no_fuel (s : jsstring) : parse_string s <> PFuel.
Proof. apply (parse_string_no_fuel_aux (n := len s)). lia. Qed.

Lemma span_digits_length (s : jsstring) :
  (len (snd (span_digits s)) <= len s)%nat.
Proof.
  induction s as [|c s IH]; simpl; [lia|].
  destruct (isDigit c); [|simpl; lia].
  destruct (span_digits s); simpl in *; lia.
Qed.

Lemma number_tail_no_fuel (minus s0 : jsstring) : number_tail minus s0 <> PFuel.
Proof.
  unfold number_tail.
  destruct (parse_int s0) as [[i s1]|]; [|discriminate].
  destruct (parse_frac s1) as [[f s2]|]; [|discriminate].
  destruct (parse_exp s2) as [[e s3]|]; discriminate.
Qed.

Lemma parse_number_no_fuel (s : jsstring) : parse_number s <> PFuel.
Proof.
  unfold parse_number. destruct s as [|c r]; [apply number_tail_no_fuel|].
  destruct (c =? 45); apply number_tail_no_fuel.
Qed.

Lemma parse_int_shorter (s i r : jsstring) :
  parse_int s = Some (i, r) -> (len r < len s)%nat.
Proof.
  destruct s as [|c s]; [discriminate|]. simpl.
  destruct (c =? 48); [intros H; inversion H; subst; simpl; lia|].
  destruct (isDigit c); [|discriminate].
  pose proof (span_digits_length s) as L.
  destruct (span_digits s). intros H; inversion H; subst. simpl in *. lia.
Qed.

Lemma parse_frac_shorter (s f r : jsstring) :
  parse_frac s = Some (f, r) -> (len r <= len s)%nat.
Proof.
  destruct s as [|c s]; simpl; [intros H; inversion H; simpl; lia|].
  destruct (c =? 46); [|intros H; inversion H; simpl; lia].
  pose proof (span_digits_length s) as L.
  destruct (span_digits s) as [[|d ds] rest]; [discriminate|].
  intros H; inversion H; subst. simpl in *. lia.
Qed.

Lemma parse_exp_shorter (s e r : jsstring) :
  parse_exp s = Some (e, r) -> (len r <= len s)%nat.
Proof.
  destruct s as [|c s]; simpl; [intros H; inversion H; simpl; lia|].
  destruct ((c =? 101) || (c =? 69)); [|intros H; inversion H; simpl; lia].
  destruct (match s with [] => _ | g :: r' => _ end) as [sign r1] eqn:E.
  assert (L1 : (len r1 <= len s)%nat).
  { destruct s as [|g s']; [inversion E; simpl; lia|].
    destruct ((g =? 43) || (g =? 45)); inversion E; subst; simpl; lia. }
  pose proof (span_digits_length r1) as L.
  destruct (span_digits r1) as [[|d ds] rest]; [discriminate|].
  intros H; inversion H; subst. simpl in *. lia.
Qed.

Lemma number_tail_shorter (minus s0 : jsstring) (v : Tree) (r : jsstring) :
  number_tail minus s0 = POk v r -> (len r < len s0)%nat.
Proof.
  unfold number_tail.
  destruct (parse_int s0) as [[i s1]|] eqn:E1; [|discriminate].
  destruct (parse_frac s1) as [[f s2]|] eqn:E2; [|discriminate].
  destruct (parse_exp s2) as [[e s3]|] eqn:E3; [|discriminate].
  intros H; inversion H; subst.
  apply parse_int_shorter in E1. apply parse_frac_shorter in E2.
  apply parse_exp_shorter in E3. lia.
Qed.

Lemma parse_number_shorter (s : jsstring) (v : Tree) (r : jsstring) :
  parse_number s = POk v r -> (len r < len s)%nat.
Proof.
  unfold parse_number. destruct s as [|c s'].
  - intros H. apply number_tail_shorter in H. simpl in H. lia.
  - destruct (c =? 45); intros H; apply number_tail_shorter in H; simpl in *; lia.
Qed.

Lemma parse_literal_no_fuel (w : jsstring) (v : Tree) (s : jsstring) :
  parse_literal w v s <> PFuel.
Proof. unfold parse_literal. destruct (startsWith w s); discriminate. Qed.

Lemma parse_literal_shorter (w : jsstring) (v v' : Tree) (s r : jsstring) :
  w <> [] -> parse_literal w v s = POk v' r -> (len r < len s)%nat.
Proof.
  unfold parse_literal. intros Hw.
  destruct (startsWith w s) eqn:E; [|discriminate].
  apply startsWith_inv in E as [t ->].
  intros H; inversion H; subst.
  rewrite skipn_app, skipn_all, Nat.sub_diag. simpl. rewrite length_app.
  destruct w; [congruence|simpl; lia].
Qed.

(** Every successful call consumes at least one code unit. *)
Lemma parse_shorter (f : nat) :
  (forall s v r, parse_value f s = POk v r -> (len r < len s)%nat) /\
  (forall s acc v r, parse_elements f s acc = POk v r -> (len r < len s)%nat) /\
  (forall s acc v r, parse_members f s acc = POk v r -> (len r < len s)%nat).
Proof.
  induction f as [|f (IHv & IHe & IHm)]; [repeat split; discriminate|].
  repeat split.
  - intros s v r H. simpl in H.
    pose proof (skip_ws_length s) as L.
    destruct (skip_ws s) as [|c r0]; [discriminate|]. simpl in L.
    destruct (c =? 91).
    { pose proof (skip_ws_length r0) as L0.
      destruct (skip_ws r0) as [|d r1]; [discriminate|]. simpl in L0.
      destruct (d =? 93); [inversion H; subst; lia|].
      apply IHe in H. simpl in H. lia. }
    destruct (c =? 123).
    { pose proof (skip_ws_length r0) as L0.
      destruct (skip_ws r0) as [|d r1]; [discriminate|]. simpl in L0.
      destruct (d =? 125); [inversion H; subst; lia|].
      apply IHm in H. simpl in H. lia. }
    destruct (c =? 34).
    { destruct (parse_string r0) eqn:E; try discriminate.
      inversion H; subst. apply parse_string_shorter in E. lia. }
    destruct (c =? 116);
      [apply parse_literal_shorter in H; [simpl in H; lia|discriminate]|].
    destruct (c =? 102);
      [apply parse_literal_shorter in H; [simpl in H; lia|discriminate]|].
    destruct (c =? 110);
      [apply parse_literal_shorter in H; [simpl in H; lia|discriminate]|].
    apply parse_number_shorter in H. simpl in H. lia.
  - intros s acc v r H. simpl in H.
    destruct (parse_value f s) as [v0 r0| |] eqn:E; try discriminate.
    apply IHv in E.
    pose proof (skip_ws_length r0) as L0.
    destruct (skip_ws r0) as [|d r1]; [discriminate|]. simpl in L0.
    destruct (d =? 44); [apply IHe in H; lia|].
    destruct (d =? 93); [inversion H; subst; lia|discriminate].
  - intros s acc v r H. simpl in H.
    pose proof (skip_ws_length s) as L.
    destruct (skip_ws s) as [|q r0]; [discriminate|]. simpl in L.
    destruct (q =? 34); [|discriminate].
    destruct (parse_string r0) as [k r1| |] eqn:E; try discriminate.
    apply parse_string_shorter in E.
    pose proof (skip_ws_length r1) as L1.
    destruct (skip_ws r1) as [|colon r2]; [discriminate|]. simpl in L1.
    destruct (colon =? 58); [|discriminate].
    destruct (parse_value f r2) as [v0 r3| |] eqn:E2; try discriminate.
    apply IHv in E2.
    pose proof (skip_ws_length r3) as L3.
    destruct (skip_ws r3) as [|d r4]; [discriminate|]. simpl in L3.
    destruct (d =? 44); [apply IHm in H; lia|].
    destruct (d =? 125); [inversion H; subst; lia|discriminate].
Qed.

(** Fuel proportional to the length of the text is never used up. *)
Lemma parse_no_fuel (f : nat) :
  (forall s, (2 * len s + 1 <= f)%nat -> parse_value f s <> PFuel) /\
  (forall s acc, (2 * len s + 2 <= f)%nat -> parse_elements f s acc <> PFuel) /\
  (forall s acc, (2 * len s + 2 <= f)%nat -> parse_members f s acc <> PFuel).
Proof.
  induction f as [|f (IHv & IHe & IHm)]; [repeat split; intros; lia|].
  destruct (parse_shorter f) as (SHv & _ & _).
  repeat split.
  - intros s Hf. simpl.
    pose proof (skip_ws_length s) as L.
    destruct (skip_ws s) as [|c r0]; [discriminate|]. simpl in L.
    destruct (c =? 91).
    { pose proof (skip_ws_length r0) as L0.
      destruct (skip_ws r0) as [|d r1]; [discriminate|]. simpl in L0.
      destruct (d =? 93); [discriminate|]. apply IHe. simpl. lia. }
    destruct (c =? 123).
    { pose proof (skip_ws_length r0) as L0.
      destruct (skip_ws r0) as [|d r1]; [discriminate|]. simpl in L0.
      destruct (d =? 125); [discriminate|]. apply IHm. simpl. lia. }
    destruct (c =? 34).
    { pose proof (parse_string_no_fuel r0).
      destruct (parse_string r0); congruence. }
    destruct (c =? 116); [apply parse_literal_no_fuel|].
    destruct (c =? 102); [apply parse_literal_no_fuel|].
    destruct (c =? 110); [apply parse_literal_no_fuel|].
    apply parse_number_no_fuel.
  - intros s acc Hf. simpl.
    assert (Hv : parse_value f s <> PFuel) by (apply IHv; lia).
    destruct (parse_value f s) as [v0 r0| |] eqn:E; [|discriminate|congruence].
    apply SHv in E.
    pose proof (skip_ws_length r0) as L0.
    destruct (skip_ws r0) as [|d r1]; [discriminate|]. simpl in L0.
    destruct (d =? 44); [apply IHe; lia|].
    destruct (d =? 93); discriminate.
  - intros s acc Hf. simpl.
    pose proof (skip_ws_length s) as L.
    destruct (skip_ws s) as [|q r0]; [discriminate|]. simpl in L.
    destruct (q =? 34); [|discriminate].
    pose proof (parse_string_no_fuel r0) as Hs.
    destruct (parse_string r0) as [k r1| |] eqn:E; [|discriminate|congruence].
    apply parse_string_shorter in E.
    pose proof (skip_ws_length r1) as L1.
    destruct (skip_ws r1) as [|colon r2]; [discriminate|]. simpl in L1.
    destruct (colon =? 58); [|discriminate].
    assert (Hv : parse_value f r2 <> PFuel) by (apply IHv; lia).
    destruct (parse_value f r2) as [v0 r3| |] eqn:E2; [|discriminate|congruence].
    apply SHv in E2.
    pose proof (skip_ws_length r3) as L3.
    destruct (skip_ws r3) as [|d r4]; [discriminate|]. simpl in L3.
    destruct (d =? 44); [apply IHm; lia|].
    destruct (d =? 125); discriminate.
Qed.

(** [JSON_parse] gives [None] only for a text that is not JSON: the
    parser never stops for lack of fuel. *)
Lemma run_no_fuel (s : jsstring) : run s <> PFuel.
Proof.
  unfold run.
  assert (H : parse_value (fuel_for s) s <> PFuel).
  { apply parse_no_fuel. unfold fuel_for. lia. }
  destruct (parse_value (fuel_for s) s) as [v r| |]; [|discriminate|congruence].
  destruct (skip_ws r); discriminate.
Qed.

End JsonFuel.

(* ================================================================== *)
(** ** The filter on well-formed and on malformed records *)

Section Filter.

Lemma same_string_iff (tag : jsstring) (v : JsValue) :
  same_string tag v = true <-> v = JStr tag.
Proof.
  destruct v; simpl; try (split; [discriminate|intros H; discriminate H]).
  rewrite eqb_eq. split; [now intros ->|now intros [= ->]].
Qed.

(** The boolean test and the property agree: a tag matches when it is the
    same sequence of code units. *)
Lemma hasTag_Tagged (tag : jsstring) (r : JsValue) :
  hasTag tag r = true <-> Tagged tag r.
Proof.
  unfold hasTag, Tagged. split.
  - destruct (own_tags r) as [[| | | |elems|]|]; try discriminate.
    intros H. apply existsb_exists in H as (v & Hin & Hv).
    apply same_string_iff in Hv. subst v. now exists elems.
  - intros (elems & -> & Hin). apply existsb_exists.
    exists (JStr tag). split; [exact Hin|now apply same_string_iff].
Qed.

Lemma vegetarianOrVegan_iff (r : JsValue) :
  vegetarianOrVegan r = true <->
  Tagged (js "Vegetarian") r \/ Tagged (js "Vegan") r.
Proof.
  unfold vegetarianOrVegan. now rewrite orb_true_iff, !hasTag_Tagged.
Qed.

Lemma keepRecipe_record (r : JsValue) :
  hasTagArray r -> keepRecipe r = Normal (vegetarianOrVegan r).
Proof.
  unfold hasTagArray, keepRecipe, tagsInclude, vegetarianOrVegan, hasTag.
  destruct r as [| | | | |props]; simpl; try discriminate.
  destruct (obj_get props (js "tags")) as [[| | | |elems|]|]; simpl;
    try discriminate.
  intros _. now destruct (existsb (same_string (js "Vegetarian")) elems).
Qed.

Lemma filterM_records (rs : list JsValue) :
  Forall hasTagArray rs ->
  filterM keepRecipe rs = Normal (filter vegetarianOrVegan rs).
Proof.
  induction 1 as [|r rs Hr _ IH]; [reflexivity|].
  simpl. rewrite (keepRecipe_record Hr). simpl. rewrite IH. simpl.
  now destruct (vegetarianOrVegan r).
Qed.

(** The callback throws on a record whose [tags] is neither an array nor a
    string, and it throws nothing but a [TypeError]. *)
Lemma keepRecipe_throws (r : JsValue) :
  isArray (own_tags r) = false -> isString (own_tags r) = false ->
  keepRecipe r = Throw TypeError.
Proof.
  unfold keepRecipe, tagsInclude.
  destruct r as [| | | | |props]; simpl; try reflexivity.
  destruct (obj_get props (js "tags")) as [[| | | | |]|]; simpl;
    try reflexivity; discriminate.
Qed.

Lemma keepRecipe_TypeError (r : JsValue) (e : JsError) :
  keepRecipe r = Throw e -> e = TypeError.
Proof.
  unfold keepRecipe, tagsInclude.
  destruct r as [| | | | |props]; simpl; try (now intros [= <-]).
  destruct (obj_get props (js "tags")) as [[| | |s|elems|]|]; simpl;
    try (now intros [= <-]).
  - destruct (JsString.includes (js "Vegetarian") s); discriminate.
  - destruct (existsb (same_string (js "Vegetarian")) elems); discriminate.
Qed.

Lemma filterM_throws (rs : list JsValue) :
  Exists (fun r => keepRecipe r = Throw TypeError) rs ->
  filterM keepRecipe rs = Throw TypeError.
Proof.
  induction 1 as [r rs Hr|r rs _ IH]; simpl.
  - now rewrite Hr.
  - destruct (keepRecipe r) as [b|e] eqn:E; simpl.
    + now rewrite IH.
    + now rewrite (keepRecipe_TypeError _ E).
Qed.

(** What [filter] returns is a selection of the input at increasing
    positions. *)
Lemma select_shift (x : JsValue) (l : list JsValue) (idxs : list nat) :
  select (x :: l) (List.map S idxs) = select l idxs.
Proof. unfold select. rewrite map_map. reflexivity. Qed.

Lemma select_all (l : list JsValue) : select l (seq 0 (List.length l)) = l.
Proof.
  unfold select. induction l as [|x l IH]; [reflexivity|].
  simpl. f_equal. rewrite <- seq_shift, map_map. exact IH.
Qed.

Lemma sorted_shift (idxs : list nat) :
  StronglySorted lt idxs -> StronglySorted lt (List.map S idxs).
Proof.
  induction 1 as [|i idxs _ IH Hi]; simpl; constructor; auto.
  apply Forall_map. eapply Forall_impl; [|exact Hi]. simpl. lia.
Qed.

Lemma sorted_seq (a n : nat) : StronglySorted lt (seq a n).
Proof.
  revert a; induction n as [|n IH]; intros a; simpl; constructor; auto.
  apply Forall_forall. intros i Hi. apply in_seq in Hi. lia.
Qed.

Lemma filterM_selects (f : JsValue -> Completion bool) (l out : list JsValue) :
  filterM f l = Normal out ->
  exists idxs, out = select l idxs /\ StronglySorted lt idxs /\
               Forall (fun i => (i < List.length l)%nat) idxs.
Proof.
  revert out; induction l as [|x l IH]; intros out H; simpl in H.
  - inversion H; subst. exists []. repeat split; constructor.
  - destruct (f x) as [b|] eqn:Eb; [|discriminate]. simpl in H.
    destruct (filterM f l) as [kept|] eqn:Ek; [|discriminate]. simpl in H.
    destruct (IH kept eq_refl) as (idxs & -> & Hs & Hb).
    assert (Hb' : Forall (fun i => (i < List.length (x :: l))%nat) (List.map S idxs)).
    { apply Forall_map. eapply Forall_impl; [|exact Hb]. simpl. lia. }
    inversion H; subst. destruct b.
    + exists (0%nat :: List.map S idxs). repeat split.
      * rewrite <- (select_shift x). reflexivity.
      * constructor; [now apply sorted_shift|].
        apply Forall_map, Forall_forall. intros; lia.
      * constructor; [simpl; lia|exact Hb'].
    + exists (List.map S idxs). repeat split.
      * now rewrite select_shift.
      * now apply sorted_shift.
      * exact Hb'.
Qed.

End Filter.

(* ================================================================== *)
(** ** The pipeline and the state *)

Section Pipeline.

Variable model : jsstring -> Completion jsstring.
Variable profile : UserProfile.
Variable availableIngredients : jsstring.
Variable st : State.

Lemma interpret_parsed (text diet : jsstring) (parsed : JsValue) :
  JSON_parse (sanitize text) = Some parsed ->
  interpret text diet =
  match dietFilter diet parsed with
  | Normal filteredRecipes => Filtered filteredRecipes
  | Throw e => Fault e
  end.
Proof. intros H. unfold interpret. now rewrite H. Qed.

Lemma interpret_fenced (t diet : jsstring) :
  interpret (fenced t) diet = interpret t diet.
Proof.
  unfold interpret, sanitize. now rewrite removeFences_fenced.
Qed.

Lemma generate_parse_error (text : jsstring) :
  model (buildPrompt availableIngredients) = Normal text ->
  JSON_parse (sanitize text) = None ->
  generateRecipes model profile availableIngredients st =
  {| recipes := recipes st; isGenerating := false;
     toasts := toasts st ++ [ToastInvalidJson];
     console := console st ++ [LogParseError (sanitize text)] |}.
Proof.
  intros Hm Hp. unfold generateRecipes, interpret. now rewrite Hm, Hp.
Qed.

Lemma generate_fault (text : jsstring) (e : JsError) :
  model (buildPrompt availableIngredients) = Normal text ->
  interpret text (dietType profile) = Fault e ->
  generateRecipes model profile availableIngredients st =
  {| recipes := recipes st; isGenerating := false;
     toasts := toasts st ++ [ToastFailed];
     console := console st ++ [LogGenerateError e] |}.
Proof.
  intros Hm Hi. unfold generateRecipes. now rewrite Hm, Hi.
Qed.

Lemma generate_filtered_recipes (text : jsstring) (v : JsValue) :
  model (buildPrompt availableIngredients) = Normal text ->
  interpret text (dietType profile) = Filtered v ->
  recipes (generateRecipes model profile availableIngredients st) = v.
Proof.
  intros Hm Hi. unfold generateRecipes. rewrite Hm, Hi.
  now destruct (interpolate_length v).
Qed.

Lemma generate_array (text : jsstring) (out : list JsValue) :
  model (buildPrompt availableIngredients) = Normal text ->
  interpret text (dietType profile) = Filtered (JArr out) ->
  generateRecipes model profile availableIngredients st =
  {| recipes := JArr out; isGenerating := false;
     toasts := toasts st ++ [ToastGenerated (INumber (List.length out))];
     console := console st |}.
Proof.
  intros Hm Hi. unfold generateRecipes. now rewrite Hm, Hi.
Qed.

End Pipeline.

(* ================================================================== *)
(** ** The consumed prefix determines the parse *)

Section JsonShape.

Import Json.

Local Arguments parse_number : simpl never.
Local Arguments parse_literal : simpl never.

Local Arguments N.eqb : simpl never.
Local Arguments N.ltb : simpl never.
Local Arguments N.leb : simpl never.

Local Abbreviation len := (@List.length N).

Lemma skip_ws_split (s : jsstring) : exists ws, s = ws ++ skip_ws s /\ all_ws ws.
Proof.
  induction s as [|c s (ws & E & H)]; [exists []; split; [reflexivity|constructor]|].
  simpl. destruct (isJsonWs c) eqn:Ec.
  - exists (c :: ws). split; [simpl; now f_equal|now constructor].
  - exists []. split; [reflexivity|constructor].
Qed.

Lemma skip_ws_app (ws x : jsstring) : all_ws ws -> skip_ws (ws ++ x) = skip_ws x.
Proof. induction 1 as [|c ws Hc _ IH]; [reflexivity|]. simpl. now rewrite Hc. Qed.

Lemma skip_ws_head (s : jsstring) (c : N) (r : jsstring) :
  skip_ws s = c :: r -> isJsonWs c = false.
Proof.
  induction s as [|d s IH]; [discriminate|]. simpl.
  destruct (isJsonWs d) eqn:Ed; [exact IH|]. now intros [= <- _].
Qed.

Lemma skip_ws_cons (c : N) (r : jsstring) :
  isJsonWs c = false -> skip_ws (c :: r) = c :: r.
Proof. intros H. simpl. now rewrite H. Qed.

Lemma skip_ws_nil (s : jsstring) : skip_ws s = [] -> all_ws s.
Proof.
  induction s as [|c s IH]; [constructor|]. simpl.
  destruct (isJsonWs c) eqn:Ec; [|discriminate]. intros H.
  constructor; [exact Ec|exact (IH H)].
Qed.

Lemma skip_ws_idem (s : jsstring) : skip_ws (skip_ws s) = skip_ws s.
Proof.
  destruct (skip_ws s) as [|c r] eqn:E; [reflexivity|].
  apply skip_ws_cons. eapply skip_ws_head; eauto.
Qed.

Lemma parse_value_skip (f : nat) (s : jsstring) :
  parse_value f (skip_ws s) = parse_value f s.
Proof. destruct f; [reflexivity|]. simpl. now rewrite skip_ws_idem. Qed.

Lemma parse_members_skip (f : nat) (s : jsstring) (acc : list (jsstring * Tree)) :
  parse_members f (skip_ws s) acc = parse_members f s acc.
Proof. destruct f; [reflexivity|]. simpl. now rewrite skip_ws_idem. Qed.

Lemma ws_not_backtick (c : N) : isJsonWs c = true -> c <> 96.
Proof. intros H ->. discriminate H. Qed.

Lemma ws_is_trim (c : N) : isJsonWs c = true -> isTrimChar c = true.
Proof.
  unfold isJsonWs, isTrimChar. intros H.
  repeat (apply orb_true_iff in H as [H|H]); apply N.eqb_eq in H; subst; reflexivity.
Qed.

(** A string literal is read up to its closing quotation mark, whatever
    follows. *)
Lemma ext_string_aux (n : nat) :
  forall s t rest, (len s <= n)%nat -> parse_string s = POk t rest ->
    exists a, s = a ++ 34 :: rest /\
              forall b, parse_string (a ++ 34 :: b) = POk t b.
Proof.
  induction n as [|n IH]; intros s t rest Hn H.
  - destruct s; [discriminate|simpl in Hn; lia].
  - destruct s as [|c s]; [discriminate|]. simpl in H, Hn.
    destruct (c =? 34) eqn:E34.
    { apply N.eqb_eq in E34. subst c. inversion H; subst.
      exists []. split; [reflexivity|]. intros b. reflexivity. }
    destruct (c =? 92) eqn:E92.
    + destruct s as [|e s]; [discriminate|].
      destruct (e =? 117) eqn:E117.
      * destruct s as [|h1 [|h2 [|h3 [|h4 s]]]]; try discriminate.
        destruct (hex4 h1 h2 h3 h4) as [u|] eqn:Eh; [|discriminate].
        destruct (parse_string s) as [t2 r2| |] eqn:E; try discriminate.
        inversion H; subst.
        destruct (IH s t2 rest) as (a & -> & Ha); [simpl in *; lia|exact E|].
        exists (c :: e :: h1 :: h2 :: h3 :: h4 :: a). split; [reflexivity|].
        intros b. simpl. now rewrite E34, E92, E117, Eh, Ha.
      * destruct (escape e) as [u|] eqn:Ee; [|discriminate].
        destruct (parse_string s) as [t2 r2| |] eqn:E; try discriminate.
        inversion H; subst.
        destruct (IH s t2 rest) as (a & -> & Ha); [simpl in *; lia|exact E|].
        exists (c :: e :: a). split; [reflexivity|].
        intros b. simpl. now rewrite E34, E92, E117, Ee, Ha.
    + destruct (c <? 32) eqn:E32; [discriminate|].
      destruct (parse_string s) as [t2 r2| |] eqn:E; try discriminate.
      inversion H; subst.
      destruct (IH s t2 rest) as (a & -> & Ha); [simpl in *; lia|exact E|].
      exists (c :: a). split; [reflexivity|].
      intros b. simpl. now rewrite E34, E92, E32, Ha.
Qed.

Lemma ext_string (s t rest : jsstring) :
  parse_string s = POk t rest ->
  exists a, s = a ++ 34 :: rest /\
            forall b, parse_string (a ++ 34 :: b) = POk t b.
Proof. apply (ext_string_aux (n := len s)). lia. Qed.

Lemma follow_ok_cases (c : N) (b : jsstring) :
  follow_ok (c :: b) = true ->
  c = 9 \/ c = 10 \/ c = 13 \/ c = 32 \/ c = 44 \/ c = 93 \/ c = 125.
Proof.
  unfold follow_ok, isJsonWs. intros H.
  repeat (apply orb_true_iff in H as [H|H]); apply N.eqb_eq in H; subst; auto 10.
Qed.

Lemma follow_ok_head (P : N -> bool) (b : jsstring) :
  P 9 = false -> P 10 = false -> P 13 = false -> P 32 = false ->
  P 44 = false -> P 93 = false -> P 125 = false ->
  follow_ok b = true -> head_is P b = false.
Proof.
  intros. destruct b as [|c b]; [reflexivity|].
  destruct (follow_ok_cases _ _ H6) as [->|[->|[->|[->|[->|[->| ->]]]]]];
    assumption.
Qed.

Lemma follow_no_digit (b : jsstring) : follow_ok b = true -> head_is isDigit b = false.
Proof. now apply follow_ok_head. Qed.

Lemma follow_no_dot (b : jsstring) : follow_ok b = true -> head_is isDot b = false.
Proof. now apply follow_ok_head. Qed.

Lemma follow_no_exp (b : jsstring) : follow_ok b = true -> head_is isExp b = false.
Proof. now apply follow_ok_head. Qed.

Lemma digit_lex (c : N) : isDigit c = true -> lex_char c.
Proof.
  unfold isDigit, lex_char, isTrimChar. intros H.
  apply andb_true_iff in H as [H1 H2].
  apply N.leb_le in H1, H2. split; [|lia].
  repeat match goal with
         | |- context [?a =? ?b] => destruct (N.eqb_spec a b); [lia|]
         | |- context [?a <=? ?b] => destruct (N.leb_spec a b); try lia
         end; reflexivity.
Qed.

Lemma span_digits_stop (b : jsstring) :
  head_is isDigit b = false -> span_digits b = ([], b).
Proof. destruct b as [|c b]; [reflexivity|]. simpl. now intros ->. Qed.

Lemma span_digits_ext (s d rest : jsstring) :
  span_digits s = (d, rest) ->
  s = d ++ rest /\ Forall lex_char d /\
  forall b, head_is isDigit b = false -> span_digits (d ++ b) = (d, b).
Proof.
  revert d rest; induction s as [|c s IH]; intros d rest H; simpl in H.
  - inversion H; subst. split; [reflexivity|]. split; [constructor|].
    intros b Hb. now apply span_digits_stop.
  - destruct (isDigit c) eqn:Ec.
    + destruct (span_digits s) as [d' rest'] eqn:E. inversion H; subst.
      destruct (IH _ _ eq_refl) as (-> & Hd & Hb).
      split; [reflexivity|]. split; [constructor; [now apply digit_lex|exact Hd]|].
      intros b Hh. simpl. now rewrite Ec, (Hb b Hh).
    + inversion H; subst. split; [reflexivity|]. split; [constructor|].
      intros b Hb. now apply span_digits_stop.
Qed.

Lemma parse_int_ext (s i r : jsstring) :
  parse_int s = Some (i, r) ->
  s = i ++ r /\ i <> [] /\ Forall lex_char i /\
  forall b, head_is isDigit b = false -> parse_int (i ++ b) = Some (i, b).
Proof.
  destruct s as [|c s]; [discriminate|]. simpl.
  destruct (c =? 48) eqn:E48.
  - intros [= <- <-]. apply N.eqb_eq in E48. subst c.
    split; [reflexivity|]. split; [discriminate|].
    split; [constructor; [split; [reflexivity|discriminate]|constructor]|].
    intros b _. reflexivity.
  - destruct (isDigit c) eqn:Ec; [|discriminate].
    destruct (span_digits s) as [d rest] eqn:E. intros [= <- <-].
    destruct (span_digits_ext _ E) as (-> & Hd & Hb).
    split; [reflexivity|]. split; [discriminate|].
    split; [constructor; [now apply digit_lex|exact Hd]|].
    intros b Hh. simpl. now rewrite E48, Ec, (Hb b Hh).
Qed.

Lemma parse_frac_stop (b : jsstring) :
  head_is isDot b = false -> parse_frac b = Some ([], b).
Proof.
  destruct b as [|c b]; [reflexivity|]. unfold isDot. simpl. now intros ->.
Qed.

Lemma parse_frac_ext (s f r : jsstring) :
  parse_frac s = Some (f, r) ->
  s = f ++ r /\ Forall lex_char f /\ head_is isDigit f = false /\
  forall b, head_is isDigit b = false -> head_is isDot b = false ->
            parse_frac (f ++ b) = Some (f, b).
Proof.
  assert (Hempty : forall x : jsstring, [] ++ x = x /\ Forall lex_char [] /\
            head_is isDigit [] = false /\
            forall b, head_is isDigit b = false -> head_is isDot b = false ->
                      parse_frac ([] ++ b) = Some ([], b)).
  { intros x. split; [reflexivity|]. split; [constructor|]. split; [reflexivity|].
    intros b _ Hb. now apply parse_frac_stop. }
  destruct s as [|c s]; simpl.
  - intros [= <- <-]. destruct (Hempty []) as (E & H); split; [now rewrite E|exact H].
  - destruct (c =? 46) eqn:E46.
    + destruct (span_digits s) as [[|d ds] rest] eqn:E; [discriminate|].
      intros [= <- <-]. apply N.eqb_eq in E46. subst c.
      destruct (span_digits_ext _ E) as (-> & Hd & Hb).
      split; [reflexivity|].
      split; [constructor; [split; [reflexivity|discriminate]|exact Hd]|].
      split; [reflexivity|].
      intros b Hh _.
      change ((46 :: d :: ds) ++ b) with (46 :: ((d :: ds) ++ b)).
      unfold parse_frac. rewrite N.eqb_refl, (Hb b Hh). reflexivity.
    + intros [= <- <-].
      destruct (Hempty (c :: s)) as (E & H); split; [now rewrite E|exact H].
Qed.

Lemma parse_exp_stop (b : jsstring) :
  head_is isExp b = false -> parse_exp b = Some ([], b).
Proof.
  destruct b as [|c b]; [reflexivity|]. unfold isExp. simpl. now intros ->.
Qed.

Lemma parse_exp_ext (s e r : jsstring) :
  parse_exp s = Some (e, r) ->
  s = e ++ r /\ Forall lex_char e /\ head_is isDigit e = false /\
  head_is isDot e = false /\
  forall b, head_is isDigit b = false -> head_is isExp b = false ->
            parse_exp (e ++ b) = Some (e, b).
Proof.
  assert (Hempty : forall x : jsstring, [] ++ x = x /\ Forall lex_char [] /\
            head_is isDigit [] = false /\ head_is isDot [] = false /\
            forall b, head_is isDigit b = false -> head_is isExp b = false ->
                      parse_exp ([] ++ b) = Some ([], b)).
  { intros x. split; [reflexivity|]. split; [constructor|]. split; [reflexivity|].
    split; [reflexivity|]. intros b _ Hb. now apply parse_exp_stop. }
  destruct s as [|c s]; simpl.
  - intros [= <- <-]. destruct (Hempty []) as (E & H); split; [now rewrite E|exact H].
  - destruct ((c =? 101) || (c =? 69)) eqn:Ec.
    + assert (Hc : lex_char c /\ isDigit c = false /\ isDot c = false).
      { apply orb_true_iff in Ec as [Ec'|Ec']; apply N.eqb_eq in Ec'; subst c;
          (split; [split; [reflexivity|discriminate]|split; reflexivity]). }
      destruct Hc as (Hc1 & Hc2 & Hc3).
      destruct s as [|g s']; [discriminate|].
      destruct ((g =? 43) || (g =? 45)) eqn:Eg.
      * destruct (span_digits s') as [[|d ds] rest] eqn:E; [discriminate|].
        intros [= <- <-].
        destruct (span_digits_ext _ E) as (-> & Hd & Hb).
        assert (Hg : lex_char g).
        { apply orb_true_iff in Eg as [Eg'|Eg']; apply N.eqb_eq in Eg'; subst g;
            (split; [reflexivity|discriminate]). }
        split; [reflexivity|].
        split; [constructor; [exact Hc1|constructor; [exact Hg|exact Hd]]|].
        split; [exact Hc2|]. split; [exact Hc3|].
        intros b Hh _.
        change ((c :: g :: d :: ds) ++ b) with (c :: g :: ((d :: ds) ++ b)).
        unfold parse_exp. rewrite Ec, Eg, (Hb b Hh). reflexivity.
      * destruct (span_digits (g :: s')) as [[|d ds] rest] eqn:E; [discriminate|].
        intros [= <- <-].
        destruct (span_digits_ext _ E) as (Es & Hd & Hb).
        split; [simpl; f_equal; exact Es|].
        split; [constructor; [exact Hc1|exact Hd]|].
        split; [exact Hc2|]. split; [exact Hc3|].
        intros b Hh _.
        assert (Eg' : d = g) by (simpl in Es; congruence). subst d.
        change ((c :: g :: ds) ++ b) with (c :: ((g :: ds) ++ b)).
        unfold parse_exp. rewrite Ec.
        change ((g :: ds) ++ b) with (g :: (ds ++ b)) at 1. cbv iota. rewrite Eg.
        change (g :: (ds ++ b)) with ((g :: ds) ++ b). rewrite (Hb b Hh).
        reflexivity.
    + intros [= <- <-].
      destruct (Hempty (c :: s)) as (E & H); split; [now rewrite E|exact H].
Qed.

Lemma head_is_app (P : N -> bool) (x y : jsstring) :
  head_is P x = false -> head_is P y = false -> head_is P (x ++ y) = false.
Proof. destruct x; simpl; auto. Qed.

Lemma ends_ok_snoc (a : jsstring) (q : N) : isTrimChar q = false -> ends_ok (a ++ [q]).
Proof. intros H. now exists a, q. Qed.

Lemma ends_ok_app (x y : jsstring) : ends_ok y -> ends_ok (x ++ y).
Proof.
  intros (a0 & q & -> & H). exists (x ++ a0), q. now rewrite app_assoc.
Qed.

Lemma ends_ok_one (q : N) : isTrimChar q = false -> ends_ok [q].
Proof. intros H. now exists [], q. Qed.

Lemma ends_ok_cons (c : N) (y : jsstring) : ends_ok y -> ends_ok (c :: y).
Proof. apply (ends_ok_app [c]). Qed.

Lemma ends_ok_lex (a : jsstring) : a <> [] -> Forall lex_char a -> ends_ok a.
Proof.
  intros Hne Ha. destruct (exists_last Hne) as (a0 & q & ->).
  apply Forall_app in Ha as [_ Hq]. inversion Hq as [|? ? [Hq1 _] _]; subst.
  now exists a0, q.
Qed.

Lemma ends_ok_nonempty (a : jsstring) : ends_ok a -> a <> [].
Proof. intros (a0 & q & -> & _). now destruct a0. Qed.

Lemma number_tail_ext (minus s0 : jsstring) (v : Tree) (rest : jsstring) :
  number_tail minus s0 = POk v rest ->
  exists x, s0 = x ++ rest /\ x <> [] /\ Forall lex_char x /\
            forall b, follow_ok b = true -> number_tail minus (x ++ b) = POk v b.
Proof.
  unfold number_tail.
  destruct (parse_int s0) as [[i s1]|] eqn:E1; [|discriminate].
  destruct (parse_frac s1) as [[f s2]|] eqn:E2; [|discriminate].
  destruct (parse_exp s2) as [[e s3]|] eqn:E3; [|discriminate].
  intros [= <- <-].
  destruct (parse_int_ext _ E1) as (-> & Hi & Li & Xi).
  destruct (parse_frac_ext _ E2) as (-> & Lf & Df & Xf).
  destruct (parse_exp_ext _ E3) as (-> & Le & De & Oe & Xe).
  exists (i ++ f ++ e). split; [now rewrite <- !app_assoc|].
  split; [destruct i; [congruence|discriminate]|].
  split; [now repeat (apply Forall_app; split)|].
  intros b Hb.
  pose proof (follow_no_digit _ Hb) as B1.
  pose proof (follow_no_dot _ Hb) as B2.
  pose proof (follow_no_exp _ Hb) as B3.
  rewrite <- !app_assoc.
  rewrite Xi by (repeat apply head_is_app; assumption).
  rewrite Xf by (repeat apply head_is_app; assumption).
  now rewrite Xe.
Qed.

Lemma parse_number_ext (s : jsstring) (v : Tree) (rest : jsstring) :
  parse_number s = POk v rest ->
  exists a, s = a ++ rest /\ a <> [] /\ Forall lex_char a /\
            forall b, follow_ok b = true -> parse_number (a ++ b) = POk v b.
Proof.
  unfold parse_number. destruct s as [|c r].
  - intros H. destruct (number_tail_ext _ _ H) as (x & E & Hx & _).
    destruct x; [congruence|discriminate].
  - destruct (c =? 45) eqn:Ec; intros H;
      destruct (number_tail_ext _ _ H) as (x & E & Hx & Lx & Xx).
    + apply N.eqb_eq in Ec. subst c r.
      exists (45 :: x). split; [reflexivity|]. split; [discriminate|].
      split; [constructor; [split; [reflexivity|discriminate]|exact Lx]|].
      intros b Hb. cbn [app]. change (45 =? 45) with true. cbv iota.
      now apply Xx.
    + destruct x as [|c' x]; [congruence|]. injection E as <- ->.
      exists (c :: x). split; [reflexivity|]. split; [discriminate|].
      split; [exact Lx|].
      intros b Hb. cbn [app]. rewrite Ec. now apply (Xx b).
Qed.

Lemma parse_literal_ext (w : jsstring) (v v' : Tree) (s rest : jsstring) :
  parse_literal w v s = POk v' rest ->
  s = w ++ rest /\ v' = v /\ forall b, parse_literal w v (w ++ b) = POk v b.
Proof.
  unfold parse_literal. destruct (startsWith w s) eqn:E; [|discriminate].
  apply startsWith_inv in E as [t ->]. intros [= <- <-].
  assert (Hs : forall x, skipn (len w) (w ++ x) = x).
  { intros x. rewrite skipn_app, skipn_all, Nat.sub_diag. reflexivity. }
  split; [now rewrite Hs|]. split; [reflexivity|].
  intros b. now rewrite startsWith_app, Hs.
Qed.

Lemma follow_ws_app (ws : jsstring) (d : N) (y : jsstring) :
  all_ws ws -> follow_ok (d :: y) = true -> follow_ok (ws ++ d :: y) = true.
Proof.
  intros [|c ws' Hc _] H; [exact H|]. simpl. now rewrite Hc.
Qed.

Lemma parse_value_ws (f : nat) (ws x : jsstring) :
  all_ws ws -> parse_value f (ws ++ x) = parse_value f x.
Proof.
  intros H. now rewrite <- parse_value_skip, skip_ws_app, parse_value_skip.
Qed.

Lemma parse_members_ws (f : nat) (ws x : jsstring) (acc : list (jsstring * Tree)) :
  all_ws ws -> parse_members f (ws ++ x) acc = parse_members f x acc.
Proof.
  intros H. now rewrite <- parse_members_skip, skip_ws_app, parse_members_skip.
Qed.

Lemma skip_ws_to (ws : jsstring) (d : N) (y : jsstring) :
  all_ws ws -> isJsonWs d = false -> skip_ws (ws ++ d :: y) = d :: y.
Proof. intros H Hd. now rewrite skip_ws_app, skip_ws_cons. Qed.

Lemma parse_value_head (f : nat) (c : N) (y : jsstring) :
  isJsonWs c = false ->
  parse_value (S f) (c :: y) =
  if c =? 91 then
    match skip_ws y with
    | d :: r' => if d =? 93 then POk (TArr []) r'
                 else parse_elements f (skip_ws y) []
    | [] => PErr
    end
  else if c =? 123 then
    match skip_ws y with
    | d :: r' => if d =? 125 then POk (TObj []) r'
                 else parse_members f (skip_ws y) []
    | [] => PErr
    end
  else if c =? 34 then
    match parse_string y with
    | POk t rest => POk (TStr t) rest
    | PErr => PErr
    | PFuel => PFuel
    end
  else if c =? 116 then parse_literal (js "true") (TBool true) (c :: y)
  else if c =? 102 then parse_literal (js "false") (TBool false) (c :: y)
  else if c =? 110 then parse_literal (js "null") TNull (c :: y)
  else parse_number (c :: y).
Proof. intros H. cbn [parse_value skip_ws]. rewrite H. reflexivity. Qed.

Lemma parse_elements_step (f : nat) (s : jsstring) (acc : list Tree) :
  parse_elements (S f) s acc =
  match parse_value f s with
  | POk v r =>
      match skip_ws r with
      | d :: r' =>
          if d =? 44 then parse_elements f r' (v :: acc)
          else if d =? 93 then POk (TArr (rev (v :: acc))) r'
          else PErr
      | [] => PErr
      end
  | PErr => PErr
  | PFuel => PFuel
  end.
Proof. reflexivity. Qed.

Lemma parse_members_head (f : nat) (q : N) (y : jsstring)
    (acc : list (jsstring * Tree)) :
  isJsonWs q = false ->
  parse_members (S f) (q :: y) acc =
  if q =? 34 then
    match parse_string y with
    | POk k r1 =>
        match skip_ws r1 with
        | colon :: r2 =>
            if colon =? 58 then
              match parse_value f r2 with
              | POk v r3 =>
                  match skip_ws r3 with
                  | d :: r4 =>
                      if d =? 44 then parse_members f r4 ((k, v) :: acc)
                      else if d =? 125 then POk (TObj (rev ((k, v) :: acc))) r4
                      else PErr
                  | [] => PErr
                  end
              | PErr => PErr
              | PFuel => PFuel
              end
            else PErr
        | [] => PErr
        end
    | PErr => PErr
    | PFuel => PFuel
    end
  else PErr.
Proof. intros H. cbn [parse_members skip_ws]. rewrite H. reflexivity. Qed.


Ltac ends_tac :=
  repeat first [ assumption
               | apply ends_ok_one
               | apply ends_ok_app
               | apply ends_ok_cons ].

(** A successful parse reads a prefix of the text that ends in a code unit
    of the value, and reads it the same way before any other rest that may
    follow a value. *)
Lemma ext_parse (f : nat) :
  (forall s w rest, parse_value f s = POk w rest ->
     exists a, s = a ++ rest /\ ends_ok a /\
               forall b, follow_ok b = true -> parse_value f (a ++ b) = POk w b) /\
  (forall s acc w rest, parse_elements f s acc = POk w rest ->
     exists a, s = a ++ rest /\ ends_ok a /\
               forall b, parse_elements f (a ++ b) acc = POk w b) /\
  (forall s acc w rest, parse_members f s acc = POk w rest ->
     exists a, s = a ++ rest /\ ends_ok a /\
               forall b, parse_members f (a ++ b) acc = POk w b).
Proof.
  induction f as [|f (IHv & IHe & IHm)]; [repeat split; discriminate|].
  split; [|split].
  - intros s w rest H.
    destruct (skip_ws_split s) as (ws & Es & Hws).
    rewrite <- parse_value_skip in H.
    destruct (skip_ws s) as [|c r] eqn:Esk; [discriminate|].
    pose proof (skip_ws_head _ Esk) as Hc. subst s. clear Esk.
    rewrite (parse_value_head f c r Hc) in H.
    assert (Hgo : forall y, parse_value (S f) ((ws ++ c :: y)) =
                            parse_value (S f) (c :: y))
      by (intros y; now apply parse_value_ws).
    destruct (c =? 91) eqn:E91.
    { destruct (skip_ws_split r) as (ws2 & Er & Hws2).
      destruct (skip_ws r) as [|d r1] eqn:Esk2; [discriminate|].
      pose proof (skip_ws_head _ Esk2) as Hd. subst r. clear Esk2.
      destruct (d =? 93) eqn:E93.
      - inversion H; subst. exists (ws ++ c :: ws2 ++ [d]).
        split; [now norm_app|].
        split; [ends_tac; char_is E93; reflexivity|].
        intros b _. norm_app. rewrite Hgo, (parse_value_head f c _ Hc), E91.
        now rewrite (skip_ws_to d _ Hws2 Hd), E93.
      - destruct (IHe _ _ _ _ H) as (a2 & E2 & Ok2 & X2).
        destruct a2 as [|d' a2]; [now apply ends_ok_nonempty in Ok2|].
        injection E2 as <- ->.
        exists (ws ++ c :: ws2 ++ d :: a2).
        split; [now norm_app|].
        split; [now ends_tac|].
        intros b _. norm_app. rewrite Hgo, (parse_value_head f c _ Hc), E91.
        rewrite (skip_ws_to d _ Hws2 Hd), E93. apply (X2 b). }
    destruct (c =? 123) eqn:E123.
    { destruct (skip_ws_split r) as (ws2 & Er & Hws2).
      destruct (skip_ws r) as [|d r1] eqn:Esk2; [discriminate|].
      pose proof (skip_ws_head _ Esk2) as Hd. subst r. clear Esk2.
      destruct (d =? 125) eqn:E125.
      - inversion H; subst. exists (ws ++ c :: ws2 ++ [d]).
        split; [now norm_app|].
        split; [ends_tac; char_is E125; reflexivity|].
        intros b _. norm_app. rewrite Hgo, (parse_value_head f c _ Hc), E91, E123.
        now rewrite (skip_ws_to d _ Hws2 Hd), E125.
      - destruct (IHm _ _ _ _ H) as (a2 & E2 & Ok2 & X2).
        destruct a2 as [|d' a2]; [now apply ends_ok_nonempty in Ok2|].
        injection E2 as <- ->.
        exists (ws ++ c :: ws2 ++ d :: a2).
        split; [now norm_app|].
        split; [now ends_tac|].
        intros b _. norm_app. rewrite Hgo, (parse_value_head f c _ Hc), E91, E123.
        rewrite (skip_ws_to d _ Hws2 Hd), E125. apply (X2 b). }
    destruct (c =? 34) eqn:E34.
    { destruct (parse_string r) as [t r1| |] eqn:Es; try discriminate.
      inversion H; subst.
      destruct (ext_string _ Es) as (a1 & -> & X1).
      exists (ws ++ c :: a1 ++ [34]).
      split; [now norm_app|].
      split; [now ends_tac|].
      intros b _. norm_app. rewrite Hgo, (parse_value_head f c _ Hc), E91, E123, E34.
      now rewrite X1. }
    assert (Hlit : forall word v,
               parse_literal word v (c :: r) = POk w rest ->
               (exists p q, word = c :: p ++ [q] /\ isTrimChar q = false) ->
               parse_value (S f) (word ++ rest) = parse_literal word v (word ++ rest) ->
               (forall b, parse_value (S f) (word ++ b) = parse_literal word v (word ++ b)) ->
               exists a, ws ++ c :: r = a ++ rest /\ ends_ok a /\
                 forall b, follow_ok b = true -> parse_value (S f) (a ++ b) = POk w b).
    { intros word v Hl (p & q & Ew & Hq) _ Hb.
      destruct (parse_literal_ext _ _ _ Hl) as (Er & -> & Xl).
      exists (ws ++ word). split; [now rewrite <- app_assoc, Er|].
      split; [apply ends_ok_app; exists (c :: p), q; now split|].
      intros b _. rewrite <- app_assoc, parse_value_ws by assumption.
      now rewrite Hb, Xl. }
    destruct (c =? 116) eqn:E116.
    { char_is E116. apply (Hlit _ _ H).
      - now exists (js "ru"), 101.
      - reflexivity.
      - intros b. reflexivity. }
    destruct (c =? 102) eqn:E102.
    { char_is E102. apply (Hlit _ _ H).
      - now exists (js "als"), 101.
      - reflexivity.
      - intros b. reflexivity. }
    destruct (c =? 110) eqn:E110.
    { char_is E110. apply (Hlit _ _ H).
      - now exists (js "ul"), 108.
      - reflexivity.
      - intros b. reflexivity. }
    destruct (parse_number_ext _ H) as (a1 & E1 & Hne & L1 & X1).
    destruct a1 as [|c' a1]; [congruence|]. injection E1 as <- ->.
    exists (ws ++ c :: a1). split; [now rewrite <- app_assoc|].
    split; [apply ends_ok_app, ends_ok_lex; [discriminate|exact L1]|].
    intros b Hb. rewrite <- app_assoc. cbn [app].
    rewrite Hgo, (parse_value_head f c _ Hc), E91, E123, E34, E116, E102, E110.
    now apply (X1 b).
  - intros s acc w rest H. rewrite parse_elements_step in H.
    destruct (parse_value f s) as [v r| |] eqn:Ev; try discriminate.
    destruct (IHv _ _ _ Ev) as (a1 & -> & Ok1 & X1).
    destruct (skip_ws_split r) as (ws2 & Er & Hws2).
    destruct (skip_ws r) as [|d r1] eqn:Esk2; [discriminate|].
    pose proof (skip_ws_head _ Esk2) as Hd. subst r. clear Esk2.
    destruct (d =? 44) eqn:E44.
    + destruct (IHe _ _ _ _ H) as (a3 & -> & Ok3 & X3).
      exists (a1 ++ ws2 ++ d :: a3).
      split; [now norm_app|].
      split; [now ends_tac|].
      intros b. norm_app.
      rewrite parse_elements_step, X1.
      * now rewrite (skip_ws_to d _ Hws2 Hd), E44, X3.
      * apply follow_ws_app; [exact Hws2|]. char_is E44. reflexivity.
    + destruct (d =? 93) eqn:E93; [|discriminate]. inversion H; subst.
      exists (a1 ++ ws2 ++ [d]).
      split; [now norm_app|].
      split; [ends_tac; char_is E93; reflexivity|].
      intros b. norm_app.
      rewrite parse_elements_step, X1.
      * now rewrite (skip_ws_to d _ Hws2 Hd), E44, E93.
      * apply follow_ws_app; [exact Hws2|]. char_is E93. reflexivity.
  - intros s acc w rest H.
    destruct (skip_ws_split s) as (ws & Es & Hws).
    rewrite <- parse_members_skip in H.
    destruct (skip_ws s) as [|q r] eqn:Esk; [discriminate|].
    pose proof (skip_ws_head _ Esk) as Hq. subst s. clear Esk.
    rewrite (parse_members_head f q r acc Hq) in H.
    destruct (q =? 34) eqn:E34; [|discriminate].
    destruct (parse_string r) as [k r1| |] eqn:Es; try discriminate.
    destruct (ext_string _ Es) as (a1 & -> & X1).
    destruct (skip_ws_split r1) as (ws1 & Er1 & Hws1).
    destruct (skip_ws r1) as [|colon r2] eqn:Esk1; [discriminate|].
    pose proof (skip_ws_head _ Esk1) as Hcolon. subst r1. clear Esk1.
    destruct (colon =? 58) eqn:E58; [|discriminate].
    destruct (parse_value f r2) as [v r3| |] eqn:Ev; try discriminate.
    destruct (IHv _ _ _ Ev) as (a2 & -> & Ok2 & X2).
    destruct (skip_ws_split r3) as (ws3 & Er3 & Hws3).
    destruct (skip_ws r3) as [|d r4] eqn:Esk3; [discriminate|].
    pose proof (skip_ws_head _ Esk3) as Hd. subst r3. clear Esk3.
    assert (Hstep : forall y,
      follow_ok (d :: y) = true ->
      parse_members (S f) ((ws ++ q :: a1 ++ 34 :: ws1 ++ colon :: a2 ++ ws3 ++ d :: y)) acc =
      if d =? 44 then parse_members f y ((k, v) :: acc)
      else if d =? 125 then POk (TObj (rev ((k, v) :: acc))) y
      else PErr).
    { intros y Hy. rewrite parse_members_ws by assumption.
      rewrite (parse_members_head f q _ acc Hq), E34, X1.
      rewrite (skip_ws_to colon _ Hws1 Hcolon), E58, X2.
      - now rewrite (skip_ws_to d _ Hws3 Hd).
      - now apply follow_ws_app. }
    destruct (d =? 44) eqn:E44.
    + destruct (IHm _ _ _ _ H) as (a3 & -> & Ok3 & X3).
      exists (ws ++ q :: a1 ++ 34 :: ws1 ++ colon :: a2 ++ ws3 ++ d :: a3).
      split; [now norm_app|].
      split; [now ends_tac|].
      intros b. norm_app.
      rewrite Hstep by (char_is E44; reflexivity). exact (X3 b).
    + destruct (d =? 125) eqn:E125; [|discriminate]. inversion H; subst.
      exists (ws ++ q :: a1 ++ 34 :: ws1 ++ colon :: a2 ++ ws3 ++ [d]).
      split; [now norm_app|].
      split; [|].
      { replace (ws ++ q :: a1 ++ 34 :: ws1 ++ colon :: a2 ++ ws3 ++ [d])
          with ((ws ++ q :: a1 ++ 34 :: ws1 ++ colon :: a2 ++ ws3) ++ [d])
          by (now norm_app).
        apply ends_ok_snoc. char_is E125. reflexivity. }
      intros b. norm_app.
      rewrite Hstep by (char_is E125; reflexivity). reflexivity.
Qed.

End JsonShape.

(* ================================================================== *)
(** ** Parsing the text without its markers *)

Section Simulation.

Import Json.

Local Arguments parse_number : simpl never.
Local Arguments parse_literal : simpl never.
Local Arguments N.eqb : simpl never.
Local Arguments N.ltb : simpl never.
Local Arguments N.leb : simpl never.

Local Abbreviation len := (@List.length N).
Local Abbreviation rf := (replaceFences 0).

Lemma rf_copy (a rest : jsstring) :
  Forall (fun c => c <> 96) a -> rf (a ++ rest) = a ++ rf rest.
Proof.
  induction 1 as [|c a Hc _ IH]; [reflexivity|].
  cbn [app]. rewrite replace_other by exact Hc. now rewrite IH.
Qed.

Lemma lex_not_backtick (a : jsstring) :
  Forall lex_char a -> Forall (fun c => c <> 96) a.
Proof. apply Forall_impl. now intros c [_ H]. Qed.

Lemma ws_not_backtick_all (ws : jsstring) :
  all_ws ws -> Forall (fun c => c <> 96) ws.
Proof. apply Forall_impl. apply ws_not_backtick. Qed.

Lemma rf_ws (ws : jsstring) : all_ws ws -> rf ws = ws.
Proof.
  intros H. rewrite <- (app_nil_r ws) at 1.
  rewrite rf_copy by now apply ws_not_backtick_all. now rewrite app_nil_r.
Qed.

Lemma follow_ok_rf (rest : jsstring) :
  follow_ok rest = true -> follow_ok (rf rest) = true.
Proof.
  destruct rest as [|c r]; [reflexivity|]. intros H.
  assert (Hc : c <> 96).
  { destruct (follow_ok_cases _ _ H) as [->|[->|[->|[->|[->|[->| ->]]]]]];
      discriminate. }
  rewrite replace_other by exact Hc. exact H.
Qed.

Lemma hexval_not_backtick (h x : N) : hexval h = Some x -> h <> 96.
Proof. intros H ->. discriminate H. Qed.

Lemma hex4_not_backtick (h1 h2 h3 h4 u : N) :
  hex4 h1 h2 h3 h4 = Some u -> Forall (fun c => c <> 96) [h1; h2; h3; h4].
Proof.
  unfold hex4.
  destruct (hexval h1) eqn:E1; [|discriminate].
  destruct (hexval h2) eqn:E2; [|discriminate].
  destruct (hexval h3) eqn:E3; [|discriminate].
  destruct (hexval h4) eqn:E4; [|discriminate].
  intros _. repeat constructor; eapply hexval_not_backtick; eauto.
Qed.

Lemma escape_not_backtick (e u : N) : escape e = Some u -> e <> 96.
Proof. intros H ->. discriminate H. Qed.

(** Reading plain code units at the head of a string literal. *)
Lemma parse_string_prefix (p x : jsstring) :
  Forall (fun c => isPlainChar c = true) p ->
  parse_string (p ++ x) =
  match parse_string x with
  | POk t r => POk (p ++ t) r
  | PErr => PErr
  | PFuel => PFuel
  end.
Proof.
  induction 1 as [|c p Hc _ IH]; [cbn [app]; now destruct (parse_string x)|].
  unfold isPlainChar in Hc.
  apply andb_true_iff in Hc as [Hc H92]. apply andb_true_iff in Hc as [H32 H34].
  apply negb_true_iff in H32, H34, H92.
  cbn [app parse_string]. rewrite H34, H92, H32, IH.
  now destruct (parse_string x).
Qed.

Lemma sim_string_aux (n : nat) :
  forall s t rest, (len s <= n)%nat -> parse_string s = POk t rest ->
    exists t', parse_string (rf s) = POk t' (rf rest) /\
               (len t' + len s + len (rf rest) = len t + len (rf s) + len rest)%nat.
Proof.
  induction n as [|n IH]; intros s t rest Hn H.
  - destruct s; [discriminate|simpl in Hn; lia].
  - destruct (startsWith fence_json s) eqn:EJ.
    { apply startsWith_inv in EJ as [s2 ->].
      rewrite parse_string_prefix in H by (repeat constructor).
      destruct (parse_string s2) as [t2 r2| |] eqn:E2; try discriminate.
      inversion H; subst.
      destruct (IH s2 t2 rest) as (t' & Ht & Hl);
        [rewrite length_app in Hn; simpl in Hn; lia|exact E2|].
      exists t'. rewrite replace_opening_fence. split; [exact Ht|].
      rewrite !length_app. simpl. lia. }
    destruct (startsWith fence s) eqn:EF.
    { assert (Er : rf s = rf (skipn 3 s)).
      { destruct s as [|c r]; [discriminate|].
        rewrite replace_0_cons, EJ, EF.
        apply startsWith_inv in EF as [s2 E]. rewrite fence_eq in E.
        injection E as -> ->. reflexivity. }
      apply startsWith_inv in EF as [s2 ->]. rewrite Er.
      rewrite parse_string_prefix in H by (repeat constructor).
      destruct (parse_string s2) as [t2 r2| |] eqn:E2; try discriminate.
      inversion H; subst.
      destruct (IH s2 t2 rest) as (t' & Ht & Hl);
        [rewrite length_app in Hn; simpl in Hn; lia|exact E2|].
      exists t'. split; [exact Ht|].
      rewrite !length_app. simpl. cbn [skipn app] in Hl |- *. lia. }
    destruct s as [|c s]; [discriminate|].
    rewrite (replace_no_match _ _ EF). clear EJ EF.
    simpl in H, Hn.
    destruct (c =? 34) eqn:E34.
    { inversion H; subst. exists []. cbn [parse_string]. rewrite E34.
      split; [reflexivity|]. simpl. lia. }
    destruct (c =? 92) eqn:E92.
    + destruct s as [|e s]; [discriminate|].
      destruct (e =? 117) eqn:E117.
      * destruct s as [|h1 [|h2 [|h3 [|h4 s]]]]; try discriminate.
        destruct (hex4 h1 h2 h3 h4) as [u|] eqn:Eh; [|discriminate].
        destruct (parse_string s) as [t2 r2| |] eqn:E; try discriminate.
        inversion H; subst.
        destruct (IH s t2 rest) as (t' & Ht & Hl); [simpl in *; lia|exact E|].
        exists (u :: t').
        assert (Hcopy : rf (e :: h1 :: h2 :: h3 :: h4 :: s) =
                        e :: h1 :: h2 :: h3 :: h4 :: rf s).
        { apply (rf_copy (a := [e; h1; h2; h3; h4])).
          constructor; [apply N.eqb_eq in E117; subst; discriminate|].
          eapply hex4_not_backtick; eauto. }
        rewrite Hcopy. cbn [parse_string]. rewrite E34, E92, E117, Eh, Ht.
        split; [reflexivity|]. simpl. lia.
      * destruct (escape e) as [u|] eqn:Ee; [|discriminate].
        destruct (parse_string s) as [t2 r2| |] eqn:E; try discriminate.
        inversion H; subst.
        destruct (IH s t2 rest) as (t' & Ht & Hl); [simpl in *; lia|exact E|].
        exists (u :: t').
        rewrite replace_other by (eapply escape_not_backtick; eauto).
        cbn [parse_string]. rewrite E34, E92, E117, Ee, Ht.
        split; [reflexivity|]. simpl. lia.
    + destruct (c <? 32) eqn:E32; [discriminate|].
      destruct (parse_string s) as [t2 r2| |] eqn:E; try discriminate.
      inversion H; subst.
      destruct (IH s t2 rest) as (t' & Ht & Hl); [simpl in *; lia|exact E|].
      exists (c :: t'). cbn [parse_string]. rewrite E34, E92, E32, Ht.
      split; [reflexivity|]. simpl. lia.
Qed.

(** A string literal of the text without markers is the literal without
    its markers: as many code units shorter as were removed. *)
Lemma sim_string (s t rest : jsstring) :
  parse_string s = POk t rest ->
  exists t', parse_string (rf s) = POk t' (rf rest) /\
             (len t' + len s + len (rf rest) = len t + len (rf s) + len rest)%nat.
Proof. apply (sim_string_aux (n := len s)). lia. Qed.

Lemma value_start (f : nat) (s : jsstring) (w : Tree) (rest : jsstring)
    (c : N) (r : jsstring) :
  parse_value f s = POk w rest -> skip_ws s = c :: r -> lex_char c.
Proof.
  destruct f as [|f]; [discriminate|]. intros H E.
  pose proof (skip_ws_head _ E) as Hc.
  rewrite <- parse_value_skip, E, (parse_value_head f c r Hc) in H.
  destruct (c =? 91) eqn:E91; [char_is E91; split; [reflexivity|discriminate]|].
  destruct (c =? 123) eqn:E123; [char_is E123; split; [reflexivity|discriminate]|].
  destruct (c =? 34) eqn:E34; [char_is E34; split; [reflexivity|discriminate]|].
  destruct (c =? 116) eqn:E116; [char_is E116; split; [reflexivity|discriminate]|].
  destruct (c =? 102) eqn:E102; [char_is E102; split; [reflexivity|discriminate]|].
  destruct (c =? 110) eqn:E110; [char_is E110; split; [reflexivity|discriminate]|].
  destruct (parse_number_ext _ H) as (a & Ea & Hne & La & _).
  destruct a as [|c' a]; [congruence|]. injection Ea as <- _.
  now inversion La.
Qed.

Lemma elements_start (f : nat) (s : jsstring) (acc : list Tree) (w : Tree)
    (rest : jsstring) (c : N) (r : jsstring) :
  parse_elements f s acc = POk w rest -> skip_ws s = c :: r -> lex_char c.
Proof.
  destruct f as [|f]; [discriminate|]. rewrite parse_elements_step.
  destruct (parse_value f s) as [v r0| |] eqn:Ev; try discriminate.
  intros _ E. eapply value_start; eauto.
Qed.

Lemma members_start (f : nat) (s : jsstring) (acc : list (jsstring * Tree))
    (w : Tree) (rest : jsstring) (c : N) (r : jsstring) :
  parse_members f s acc = POk w rest -> skip_ws s = c :: r -> c = 34.
Proof.
  destruct f as [|f]; [discriminate|]. intros H E.
  pose proof (skip_ws_head _ E) as Hc.
  rewrite <- parse_members_skip, E, (parse_members_head f c r acc Hc) in H.
  destruct (c =? 34) eqn:E34; [now apply N.eqb_eq in E34|discriminate].
Qed.

Lemma list_sum_rev (l : list nat) : list_sum (rev l) = list_sum l.
Proof.
  induction l as [|x l IH]; [reflexivity|].
  simpl. rewrite list_sum_app, IH. simpl. lia.
Qed.

Lemma tree_size_array (v : Tree) (acc : list Tree) :
  tree_size (TArr (rev (v :: acc))) =
  (tree_size v + list_sum (List.map tree_size acc))%nat.
Proof.
  cbn [tree_size]. rewrite map_rev, list_sum_rev. reflexivity.
Qed.

Lemma tree_size_object (k : jsstring) (v : Tree) (acc : list (jsstring * Tree)) :
  tree_size (TObj (rev ((k, v) :: acc))) =
  (len k + tree_size v +
   list_sum (List.map (fun m => (len (fst m) + tree_size (snd m))%nat) acc))%nat.
Proof.
  cbn [tree_size]. rewrite map_rev, list_sum_rev. reflexivity.
Qed.

Lemma sum_cons (A : Type) (g : A -> nat) (x : A) (l : list A) :
  list_sum (List.map g (x :: l)) = (g x + list_sum (List.map g l))%nat.
Proof. reflexivity. Qed.

Lemma sum_cons_member (k : jsstring) (v : Tree) (l : list (jsstring * Tree)) :
  list_sum (List.map (fun m => (len (fst m) + tree_size (snd m))%nat) ((k, v) :: l)) =
  (len k + tree_size v +
   list_sum (List.map (fun m => (len (fst m) + tree_size (snd m))%nat) l))%nat.
Proof. reflexivity. Qed.

Lemma sim_number (s : jsstring) (v : Tree) (rest : jsstring) :
  parse_number s = POk v rest -> follow_ok rest = true ->
  parse_number (rf s) = POk v (rf rest) /\
  (len s + len (rf rest) = len (rf s) + len rest)%nat.
Proof.
  intros H Hf. destruct (parse_number_ext _ H) as (a & -> & _ & La & X).
  rewrite rf_copy by now apply lex_not_backtick.
  split; [apply X; now apply follow_ok_rf|]. rewrite !length_app. lia.
Qed.

Lemma sim_literal (word : jsstring) (v v' : Tree) (s rest : jsstring) :
  Forall (fun c => c <> 96) word ->
  parse_literal word v s = POk v' rest ->
  parse_literal word v (rf s) = POk v' (rf rest) /\
  (len s + len (rf rest) = len (rf s) + len rest)%nat.
Proof.
  intros Hw H. destruct (parse_literal_ext _ _ _ H) as (-> & -> & X).
  rewrite rf_copy by exact Hw. split; [apply X|]. rewrite !length_app. lia.
Qed.

(** The parse of the text without its markers runs as the parse of the
    text does; the sizes of the two trees differ by the number of code
    units that were removed. *)
Lemma sim_parse (f : nat) :
  (forall s w rest, parse_value f s = POk w rest -> follow_ok rest = true ->
     exists w', parse_value f (rf s) = POk w' (rf rest) /\
       (tree_size w' + len s + len (rf rest) =
        tree_size w + len (rf s) + len rest)%nat) /\
  (forall s acc w rest, parse_elements f s acc = POk w rest ->
     forall acc', exists w', parse_elements f (rf s) acc' = POk w' (rf rest) /\
       (tree_size w' + list_sum (List.map tree_size acc) + len s + len (rf rest) =
        tree_size w + list_sum (List.map tree_size acc') + len (rf s) + len rest)%nat) /\
  (forall s acc w rest, parse_members f s acc = POk w rest ->
     forall acc', exists w', parse_members f (rf s) acc' = POk w' (rf rest) /\
       (tree_size w' +
        list_sum (List.map (fun m => (len (fst m) + tree_size (snd m))%nat) acc) +
        len s + len (rf rest) =
        tree_size w +
        list_sum (List.map (fun m => (len (fst m) + tree_size (snd m))%nat) acc') +
        len (rf s) + len rest)%nat).
Proof.
  induction f as [|f (IHv & IHe & IHm)]; [repeat split; discriminate|].
  split; [|split].
  - intros s w rest H Hfol.
    destruct (skip_ws_split s) as (ws & Es & Hws).
    rewrite <- parse_value_skip in H.
    destruct (skip_ws s) as [|c r] eqn:Esk; [discriminate|].
    pose proof (skip_ws_head _ Esk) as Hc.
    pose proof (value_start _ _ H (skip_ws_cons c r Hc)) as [_ Hc96].
    subst s. clear Esk.
    rewrite (rf_copy _ (ws_not_backtick_all Hws)), parse_value_ws by exact Hws.
    rewrite (replace_other r Hc96).
    rewrite (parse_value_head f c r Hc) in H.
    rewrite (parse_value_head f c _ Hc).
    destruct (c =? 91) eqn:E91.
    { destruct (skip_ws_split r) as (ws2 & Er & Hws2).
      destruct (skip_ws r) as [|d r1] eqn:Esk2; [discriminate|].
      pose proof (skip_ws_head _ Esk2) as Hd. subst r. clear Esk2.
      rewrite (rf_copy _ (ws_not_backtick_all Hws2)).
      destruct (d =? 93) eqn:E93.
      - inversion H; subst. exists (TArr []).
        rewrite replace_other by (char_is E93; discriminate).
        rewrite (skip_ws_to d _ Hws2 Hd), E93. split; [reflexivity|]. len_tac.
      - pose proof (elements_start _ _ _ H (skip_ws_cons d r1 Hd)) as [_ Hd96].
        destruct (IHe _ _ _ _ H []) as (w' & Hw' & Hl).
        exists w'. rewrite (replace_other r1 Hd96) in *.
        rewrite (skip_ws_to d _ Hws2 Hd), E93. split; [exact Hw'|].
        change (list_sum (List.map tree_size [])) with 0%nat in Hl. len_tac. }
    destruct (c =? 123) eqn:E123.
    { destruct (skip_ws_split r) as (ws2 & Er & Hws2).
      destruct (skip_ws r) as [|d r1] eqn:Esk2; [discriminate|].
      pose proof (skip_ws_head _ Esk2) as Hd. subst r. clear Esk2.
      rewrite (rf_copy _ (ws_not_backtick_all Hws2)).
      destruct (d =? 125) eqn:E125.
      - inversion H; subst. exists (TObj []).
        rewrite replace_other by (char_is E125; discriminate).
        rewrite (skip_ws_to d _ Hws2 Hd), E125. split; [reflexivity|]. len_tac.
      - pose proof (members_start _ _ _ H (skip_ws_cons d r1 Hd)) as Hd34.
        destruct (IHm _ _ _ _ H []) as (w' & Hw' & Hl).
        exists w'.
        rewrite (replace_other r1 (c := d)) in * by (subst d; discriminate).
        rewrite (skip_ws_to d _ Hws2 Hd), E125. split; [exact Hw'|].
        cbn [List.map] in Hl. change (list_sum []) with 0%nat in Hl. len_tac. }
    destruct (c =? 34) eqn:E34.
    { destruct (parse_string r) as [t r1| |] eqn:Es; try discriminate.
      inversion H; subst.
      destruct (sim_string _ Es) as (t' & Ht & Hl).
      exists (TStr t'). rewrite Ht. split; [reflexivity|].
      cbn [tree_size]. len_tac. }
    assert (Hlit : forall word v,
               Forall (fun c => c <> 96) word ->
               parse_literal word v (c :: r) = POk w rest ->
               exists w', parse_literal word v (c :: rf r) = POk w' (rf rest) /\
                 (tree_size w' + len (ws ++ c :: r) + len (rf rest) =
                  tree_size w + len (ws ++ c :: rf r) + len rest)%nat).
    { intros word v Hw Hl. destruct (sim_literal _ _ Hw Hl) as (Hl' & Hlen).
      rewrite (replace_other r Hc96) in *.
      exists w. split; [exact Hl'|]. len_tac. }
    destruct (c =? 116) eqn:E116;
      [apply (Hlit (js "true") (TBool true));
       [unfold js; simpl; repeat constructor; discriminate|exact H]|].
    destruct (c =? 102) eqn:E102;
      [apply (Hlit (js "false") (TBool false));
       [unfold js; simpl; repeat constructor; discriminate|exact H]|].
    destruct (c =? 110) eqn:E110;
      [apply (Hlit (js "null") (TNull));
       [unfold js; simpl; repeat constructor; discriminate|exact H]|].
    destruct (sim_number _ H Hfol) as (Hn & Hlen).
    rewrite (replace_other r Hc96) in *.
    exists w. split; [exact Hn|]. len_tac.
  - intros s acc w rest H acc'. rewrite parse_elements_step in H.
    rewrite parse_elements_step.
    destruct (parse_value f s) as [v r| |] eqn:Ev; try discriminate.
    destruct (skip_ws_split r) as (ws2 & Er & Hws2).
    destruct (skip_ws r) as [|d r1] eqn:Esk2; [discriminate|].
    pose proof (skip_ws_head _ Esk2) as Hd. subst r. clear Esk2.
    assert (Hd' : d = 44 \/ d = 93).
    { destruct (d =? 44) eqn:E44; [left; now apply N.eqb_eq|].
      destruct (d =? 93) eqn:E93; [right; now apply N.eqb_eq|discriminate]. }
    assert (Hd96 : d <> 96) by (destruct Hd'; subst; discriminate).
    destruct (IHv _ _ _ Ev) as (v' & Hv' & Hl1).
    { apply follow_ws_app; [exact Hws2|]. destruct Hd'; subst; reflexivity. }
    rewrite Hv'.
    rewrite (rf_copy _ (ws_not_backtick_all Hws2)), (replace_other r1 Hd96) in *.
    rewrite (skip_ws_to d _ Hws2 Hd).
    destruct (d =? 44) eqn:E44.
    + destruct (IHe _ _ _ _ H (v' :: acc')) as (w' & Hw' & Hl2).
      exists w'. split; [exact Hw'|]. rewrite !sum_cons in Hl2. len_tac.
    + destruct (d =? 93) eqn:E93; [|discriminate]. injection H as <- <-.
      exists (TArr (rev (v' :: acc'))). split; [reflexivity|].
      change (rev acc ++ [v]) with (rev (v :: acc)).
      rewrite !tree_size_array. len_tac.
  - intros s acc w rest H acc'.
    destruct (skip_ws_split s) as (ws & Es & Hws).
    rewrite <- parse_members_skip in H.
    destruct (skip_ws s) as [|q r] eqn:Esk; [discriminate|].
    pose proof (skip_ws_head _ Esk) as Hq.
    pose proof (members_start _ _ _ H (skip_ws_cons q r Hq)) as Hq34.
    subst s. clear Esk.
    rewrite (rf_copy _ (ws_not_backtick_all Hws)), parse_members_ws by exact Hws.
    rewrite (replace_other r (c := q)) by (subst q; discriminate).
    rewrite (parse_members_head f q r acc Hq) in H.
    rewrite (parse_members_head f q _ acc' Hq).
    destruct (q =? 34) eqn:E34; [|discriminate].
    destruct (parse_string r) as [k r1| |] eqn:Es; try discriminate.
    destruct (sim_string _ Es) as (k' & Hk & Hl0). rewrite Hk.
    destruct (skip_ws_split r1) as (ws1 & Er1 & Hws1).
    destruct (skip_ws r1) as [|colon r2] eqn:Esk1; [discriminate|].
    pose proof (skip_ws_head _ Esk1) as Hcolon. subst r1. clear Esk1.
    destruct (colon =? 58) eqn:E58; [|discriminate].
    rewrite (rf_copy _ (ws_not_backtick_all Hws1)) in *.
    rewrite (replace_other r2 (c := colon)) in * by (char_is E58; discriminate).
    rewrite (skip_ws_to colon _ Hws1 Hcolon), E58.
    destruct (parse_value f r2) as [v r3| |] eqn:Ev; try discriminate.
    destruct (skip_ws_split r3) as (ws3 & Er3 & Hws3).
    destruct (skip_ws r3) as [|d r4] eqn:Esk3; [discriminate|].
    pose proof (skip_ws_head _ Esk3) as Hd. subst r3. clear Esk3.
    assert (Hd' : d = 44 \/ d = 125).
    { destruct (d =? 44) eqn:E44; [left; now apply N.eqb_eq|].
      destruct (d =? 125) eqn:E125; [right; now apply N.eqb_eq|discriminate]. }
    assert (Hd96 : d <> 96) by (destruct Hd'; subst; discriminate).
    destruct (IHv _ _ _ Ev) as (v' & Hv' & Hl1).
    { apply follow_ws_app; [exact Hws3|]. destruct Hd'; subst; reflexivity. }
    rewrite Hv'.
    rewrite (rf_copy _ (ws_not_backtick_all Hws3)), (replace_other r4 Hd96) in *.
    rewrite (skip_ws_to d _ Hws3 Hd).
    destruct (d =? 44) eqn:E44.
    + destruct (IHm _ _ _ _ H ((k', v') :: acc')) as (w' & Hw' & Hl2).
      exists w'. split; [exact Hw'|].
      rewrite !sum_cons_member in Hl2. len_tac.
    + destruct (d =? 125) eqn:E125; [|discriminate]. injection H as <- <-.
      exists (TObj (rev ((k', v') :: acc'))). split; [reflexivity|].
      change (rev acc ++ [(k, v)]) with (rev ((k, v) :: acc)).
      rewrite !tree_size_object. len_tac.
Qed.

End Simulation.

(* ================================================================== *)
(** ** More fuel changes nothing *)

Section FuelMono.

Import Json.

Local Arguments parse_number : simpl never.
Local Arguments parse_literal : simpl never.
Local Arguments N.eqb : simpl never.

Lemma fuel_step (f : nat) :
  (forall s, parse_value f s <> PFuel -> parse_value (S f) s = parse_value f s) /\
  (forall s acc, parse_elements f s acc <> PFuel ->
                 parse_elements (S f) s acc = parse_elements f s acc) /\
  (forall s acc, parse_members f s acc <> PFuel ->
                 parse_members (S f) s acc = parse_members f s acc).
Proof.
  induction f as [|f (IHv & IHe & IHm)]; [repeat split; intros; now exfalso|].
  split; [|split].
  - intros s H. rewrite <- (parse_value_skip (S (S f))), <- (parse_value_skip (S f)).
    rewrite <- (parse_value_skip (S f)) in H.
    destruct (skip_ws s) as [|c r] eqn:Esk; [reflexivity|].
    pose proof (skip_ws_head _ Esk) as Hc.
    rewrite (parse_value_head (S f) c r Hc).
    rewrite (parse_value_head f c r Hc) in H |- *.
    destruct (c =? 91).
    { destruct (skip_ws r) as [|d r1]; [reflexivity|].
      destruct (d =? 93); [reflexivity|]. now apply IHe. }
    destruct (c =? 123).
    { destruct (skip_ws r) as [|d r1]; [reflexivity|].
      destruct (d =? 125); [reflexivity|]. now apply IHm. }
    reflexivity.
  - intros s acc H. rewrite (parse_elements_step (S f)).
    rewrite parse_elements_step in H |- *.
    destruct (parse_value f s) as [v r| |] eqn:Ev; [| |congruence].
    + rewrite IHv, Ev by (rewrite Ev; discriminate).
      destruct (skip_ws r) as [|d r1]; [reflexivity|].
      destruct (d =? 44); [now apply IHe|reflexivity].
    + rewrite IHv, Ev by (rewrite Ev; discriminate). reflexivity.
  - intros s acc H.
    rewrite <- (parse_members_skip (S (S f))), <- (parse_members_skip (S f)).
    rewrite <- (parse_members_skip (S f)) in H.
    destruct (skip_ws s) as [|q r] eqn:Esk; [reflexivity|].
    pose proof (skip_ws_head _ Esk) as Hq.
    rewrite (parse_members_head (S f) q r acc Hq).
    rewrite (parse_members_head f q r acc Hq) in H |- *.
    destruct (q =? 34); [|reflexivity].
    destruct (parse_string r) as [k r1| |]; try reflexivity.
    destruct (skip_ws r1) as [|colon r2]; [reflexivity|].
    destruct (colon =? 58); [|reflexivity].
    destruct (parse_value f r2) as [v r3| |] eqn:Ev; [| |congruence].
    + rewrite IHv, Ev by (rewrite Ev; discriminate).
      destruct (skip_ws r3) as [|d r4]; [reflexivity|].
      destruct (d =? 44); [now apply IHm|reflexivity].
    + rewrite IHv, Ev by (rewrite Ev; discriminate). reflexivity.
Qed.

Lemma fuel_le (f f' : nat) (s : jsstring) :
  (f <= f')%nat -> parse_value f s <> PFuel -> parse_value f' s = parse_value f s.
Proof.
  induction 1 as [|f' _ IH]; [reflexivity|]. intros H.
  rewrite <- (IH H). apply fuel_step. now rewrite (IH H).
Qed.

(** The result of a parse that does not run out of fuel is the result
    with the fuel that [JSON.parse] provides. *)
Lemma fuel_any (f : nat) (s : jsstring) (w : Tree) (rest : jsstring) :
  parse_value f s = POk w rest -> parse_value (fuel_for s) s = POk w rest.
Proof.
  intros H.
  assert (Hn : parse_value (fuel_for s) s <> PFuel).
  { apply parse_no_fuel. unfold fuel_for. lia. }
  destruct (Nat.le_ge_cases f (fuel_for s)) as [L|L].
  - rewrite (fuel_le s L), H by (rewrite H; discriminate). reflexivity.
  - rewrite <- (fuel_le s L Hn). exact H.
Qed.

End FuelMono.

(* ================================================================== *)
(** ** The size of the value of a parse tree *)

Section Sizes.

Import Json.

Local Abbreviation len := (@List.length N).
Local Abbreviation step :=
  (fun (props : list (jsstring * JsValue)) (m : jsstring * Tree) =>
     obj_set props (fst m) (build (snd m))).

Lemma props_size_cons (k : jsstring) (v : JsValue) (l : list (jsstring * JsValue)) :
  props_size ((k, v) :: l) = (len k + value_size v + props_size l)%nat.
Proof. reflexivity. Qed.

Lemma members_size_cons (m : jsstring * Tree) (l : list (jsstring * Tree)) :
  members_size (m :: l) = (len (fst m) + tree_size (snd m) + members_size l)%nat.
Proof. reflexivity. Qed.

Lemma obj_set_size (props : list (jsstring * JsValue)) (k : jsstring) (v : JsValue) :
  (props_size (obj_set props k v) <= props_size props + len k + value_size v)%nat.
Proof.
  induction props as [|[k' v'] props IH].
  - cbn [obj_set]. rewrite props_size_cons. unfold props_size. simpl. lia.
  - cbn [obj_set]. destruct (JsString.eqb k' k) eqn:E;
      rewrite !props_size_cons; lia.
Qed.

Lemma fold_size (members : list (jsstring * Tree)) :
  Forall (fun m => (value_size (build (snd m)) <= tree_size (snd m))%nat) members ->
  forall acc,
    (props_size (fold_left step members acc) <=
     props_size acc + members_size members)%nat.
Proof.
  induction 1 as [|m members Hm _ IH]; intros acc.
  - cbn [fold_left]. unfold members_size. simpl. lia.
  - cbn [fold_left]. rewrite members_size_cons.
    specialize (IH (obj_set acc (fst m) (build (snd m)))).
    pose proof (obj_set_size acc (fst m) (build (snd m))). lia.
Qed.

(** Building the value can drop members, never add code units. *)
Lemma build_size_le (w : Tree) : (value_size (build w) <= tree_size w)%nat.
Proof.
  induction w as [| | | |elems IH|members IH] using Tree_nested_ind;
    try (simpl; lia).
  - cbn [build value_size tree_size]. rewrite map_map.
    induction IH as [|x l Hx _ IHl]; simpl; lia.
  - change (props_size (fold_left step members []) <= members_size members)%nat.
    pose proof (fold_size IH []) as H. unfold props_size at 2 in H.
    simpl in H. exact H.
Qed.

Lemma distinct_NoDup (keys : list jsstring) : distinct keys = true -> NoDup keys.
Proof.
  induction keys as [|k keys IH]; simpl; [constructor|].
  intros H. apply andb_true_iff in H as [H1 H2]. apply negb_true_iff in H1.
  constructor; [|auto]. intros Hin.
  assert (existsb (JsString.eqb k) keys = true); [|congruence].
  apply existsb_exists. exists k. split; [exact Hin|apply eqb_refl].
Qed.

Lemma obj_set_fresh (props : list (jsstring * JsValue)) (k : jsstring) (v : JsValue) :
  ~ In k (List.map fst props) -> obj_set props k v = props ++ [(k, v)].
Proof.
  induction props as [|[k' v'] props IH]; simpl; [reflexivity|]. intros H.
  destruct (JsString.eqb k' k) eqn:E.
  - apply eqb_eq in E. tauto.
  - rewrite IH; [reflexivity|tauto].
Qed.

Lemma fold_distinct (members : list (jsstring * Tree)) :
  forall acc,
    NoDup (List.map fst acc ++ List.map fst members) ->
    fold_left step members acc =
    acc ++ List.map (fun m => (fst m, build (snd m))) members.
Proof.
  induction members as [|m members IH]; intros acc H; simpl.
  - now rewrite app_nil_r.
  - simpl in H. rewrite obj_set_fresh.
    + rewrite IH; [now rewrite <- app_assoc|].
      rewrite map_app, <- app_assoc. exact H.
    + apply NoDup_remove_2 in H. intros Hin. apply H, in_or_app. now left.
Qed.

(** Without duplicate keys nothing is dropped. *)
Lemma build_size_eq (w : Tree) :
  distinct_keys w = true -> value_size (build w) = tree_size w.
Proof.
  induction w as [| | | |elems IH|members IH] using Tree_nested_ind;
    try reflexivity.
  - cbn [build value_size tree_size distinct_keys]. rewrite map_map. intros H.
    induction IH as [|x l Hx _ IHl]; [reflexivity|].
    simpl in H. apply andb_true_iff in H as [H1 H2].
    simpl. now rewrite Hx, IHl.
  - cbn [distinct_keys]. intros H.
    apply andb_true_iff in H as [H1 H2]. apply distinct_NoDup in H1.
    change (props_size (fold_left step members []) = members_size members).
    rewrite (fold_distinct members []) by exact H1. cbn [app]. clear H1.
    induction IH as [|m l Hm _ IHl]; [reflexivity|].
    simpl in H2. apply andb_true_iff in H2 as [H2 H3].
    cbn [List.map]. rewrite props_size_cons, members_size_cons.
    now rewrite Hm, IHl.
Qed.

End Sizes.

(* ================================================================== *)
(** ** Parsing the sanitized text *)

Section SanitizedParse.

Import Json.

Local Abbreviation len := (@List.length N).
Local Abbreviation rf := (replaceFences 0).

Lemma replace_length (s : jsstring) (k : nat) :
  (len (replaceFences k s) <= len s)%nat.
Proof.
  revert k; induction s as [|c r IH]; intros k; [simpl; lia|].
  destruct k as [|k]; [|simpl; specialize (IH k); lia].
  rewrite replace_0_cons.
  destruct (startsWith fence_json (c :: r)); [specialize (IH 6%nat); simpl; lia|].
  destruct (startsWith fence (c :: r)); [specialize (IH 2%nat); simpl; lia|].
  specialize (IH 0%nat); simpl; lia.
Qed.

(** A text with a marker gets shorter. *)
Lemma replace_shrinks (s : jsstring) :
  includes fence s = true -> (len (rf s) < len s)%nat.
Proof.
  induction s as [|c r IH]; [discriminate|].
  rewrite includes_cons, replace_0_cons.
  destruct (startsWith fence_json (c :: r)) eqn:EJ.
  { intros _. pose proof (replace_length r 6). simpl. lia. }
  destruct (startsWith fence (c :: r)) eqn:EF.
  { intros _. pose proof (replace_length r 2). simpl. lia. }
  simpl. intros H. specialize (IH H). lia.
Qed.

Lemma all_ws_follow (rest : jsstring) : all_ws rest -> follow_ok rest = true.
Proof. intros [|c r Hc _]; [reflexivity|]. simpl. now rewrite Hc. Qed.

Lemma trimStart_ws (ws x : jsstring) : all_ws ws -> trimStart (ws ++ x) = trimStart x.
Proof.
  induction 1 as [|c ws Hc _ IH]; [reflexivity|].
  simpl. now rewrite (ws_is_trim _ Hc).
Qed.

Lemma trimEnd_ws (rest : jsstring) : all_ws rest -> trimEnd rest = [].
Proof.
  induction 1 as [|c ws Hc _ IH]; [reflexivity|].
  simpl. now rewrite IH, (ws_is_trim _ Hc).
Qed.

Lemma trimEnd_tail (l : jsstring) (q : N) (rest : jsstring) :
  isTrimChar q = false -> all_ws rest -> trimEnd (l ++ q :: rest) = l ++ [q].
Proof.
  intros Hq Hr. induction l as [|c l IH].
  - simpl. now rewrite (trimEnd_ws Hr), Hq.
  - cbn [app trimEnd]. rewrite IH. destruct (l ++ [q]) eqn:E; [|reflexivity].
    destruct l; discriminate.
Qed.

(** When the text is valid JSON, so is the sanitized text, and its parse
    tree is smaller by the number of code units that the replacement
    removed. *)
Lemma sanitized_run (t : jsstring) (w : Tree) :
  run t = POk w [] ->
  exists w', run (sanitize t) = POk w' [] /\
             (tree_size w' + len t = tree_size w + len (removeFences t))%nat.
Proof.
  unfold run. intros H.
  destruct (parse_value (fuel_for t) t) as [w0 rest| |] eqn:E; try discriminate.
  destruct (skip_ws rest) eqn:Er; [|discriminate]. injection H as ->.
  pose proof (skip_ws_nil _ Er) as Hrest.
  destruct (proj1 (sim_parse (fuel_for t)) t w rest E (all_ws_follow Hrest))
    as (w' & E' & Hl).
  rewrite (rf_ws Hrest) in E', Hl.
  destruct (proj1 (ext_parse (fuel_for t)) _ _ _ E') as (a & Ea & Hok & X).
  specialize (X [] eq_refl). rewrite app_nil_r in X.
  destruct (skip_ws_split a) as (ws & Ea2 & Hws).
  destruct (skip_ws a) as [|c r] eqn:Esk.
  { rewrite <- parse_value_skip, Esk in X. discriminate X. }
  pose proof (value_start _ _ X Esk) as [Hc _].
  assert (Hs : sanitize t = c :: r).
  { unfold sanitize, removeFences, trim. rewrite Ea, Ea2, <- app_assoc.
    rewrite (trimStart_ws _ Hws). cbn [app trimStart]. rewrite Hc.
    destruct Hok as (a0 & q & Ea3 & Hq).
    destruct (@exists_last _ (c :: r)) as (y0 & q' & Ey); [discriminate|].
    rewrite Ey in Ea2. rewrite Ea2, app_assoc in Ea3.
    apply app_inj_tail in Ea3 as [_ ->].
    change (c :: r ++ rest) with ((c :: r) ++ rest).
    rewrite Ey, <- app_assoc. cbn [app]. now apply trimEnd_tail. }
  exists w'. rewrite Hs. split.
  - rewrite <- parse_value_skip, Esk in X. now rewrite (fuel_any _ _ X).
  - unfold removeFences. lia.
Qed.

(** A valid text without duplicate keys that contains a marker parses,
    once sanitized, to a value other than its own. *)
Lemma sanitized_value_differs (t : jsstring) (w : Tree) :
  run t = POk w [] -> distinct_keys w = true -> includes fence t = true ->
  exists w', run (sanitize t) = POk w' [] /\ build w' <> build w.
Proof.
  intros H Hd Hf. destruct (@sanitized_run t w H) as (w' & Hr & Hl).
  exists w'. split; [exact Hr|]. intros E.
  pose proof (build_size_le w') as L. rewrite E, (@build_size_eq w Hd) in L.
  pose proof (@replace_shrinks t Hf). unfold removeFences in Hl. lia.
Qed.

End SanitizedParse.
(* ================================================================== *)
(** ** The properties of the specification *)

(** C1 (as the specification states it, refuted): under the diet type
    vegan a record tagged only Vegetarian, which has no tag Vegan, is
    retained all the same: the callback of line 94 does not look at the
    diet type. *)
Lemma C1_vegan_keeps_vegetarian_only :
  ~ Tagged (js "Vegan") (record ["Vegetarian"]) /\
  interpret (jsq "[{'tags':['Vegetarian']}]") (js "vegan") =
  Filtered (JArr [record ["Vegetarian"]]).
Proof.
  split; [|reflexivity].
  intros H. apply hasTag_Tagged in H. discriminate H.
Qed.

(** C1 (amended): for a parsed batch of records and a diet type that is
    vegetarian or vegan, the filter retains exactly the records whose tag
    array contains the string Vegetarian or the string Vegan, compared
    code unit by code unit, in the order of the batch; the same test
    serves both diet types. *)
Theorem C1_restricted_diet_filter (text dietType : jsstring) (rs : list JsValue) :
  dietType = js "vegetarian" \/ dietType = js "vegan" ->
  JSON_parse (sanitize text) = Some (JArr rs) ->
  Forall hasTagArray rs ->
  exists out,
    interpret text dietType = Filtered (JArr out) /\
    out = filter vegetarianOrVegan rs /\
    (forall r, In r out <->
               In r rs /\ (Tagged (js "Vegetarian") r \/ Tagged (js "Vegan") r)).
Proof.
  intros Hd Hp Hrs. exists (filter vegetarianOrVegan rs).
  split; [|split; [reflexivity|]].
  - rewrite interpret_parsed with (parsed := JArr rs) by exact Hp. unfold dietFilter.
    replace (isRestricted dietType) with true by (destruct Hd; subst; reflexivity).
    simpl. now rewrite (filterM_records Hrs).
  - intros r. now rewrite filter_In, vegetarianOrVegan_iff.
Qed.

Lemma C1_restricted_diet_filter_witness :
  exists out,
    interpret mixed_tags (js "vegan") = Filtered (JArr out) /\
    out = [record ["Vegetarian"]; record ["Keto"; "Vegan"]] /\
    (forall r, In r out <->
               In r [record ["Vegetarian"]; record ["vegan"]; record ["Keto"; "Vegan"]] /\
               (Tagged (js "Vegetarian") r \/ Tagged (js "Vegan") r)).
Proof.
  apply (@C1_restricted_diet_filter mixed_tags (js "vegan")
           [record ["Vegetarian"]; record ["vegan"]; record ["Keto"; "Vegan"]]).
  - right; reflexivity.
  - reflexivity.
  - repeat constructor.
Defined.

(** C2: for a parsed batch of records and the diet type vegetarian the
    output is exactly the records whose tags include Vegetarian or Vegan,
    matched case-sensitively. *)
Theorem C2_vegetarian_filter (text : jsstring) (rs : list JsValue) :
  JSON_parse (sanitize text) = Some (JArr rs) ->
  Forall hasTagArray rs ->
  interpret text (js "vegetarian") = Filtered (JArr (filter vegetarianOrVegan rs)) /\
  (forall r, vegetarianOrVegan r = true <->
             Tagged (js "Vegetarian") r \/ Tagged (js "Vegan") r).
Proof.
  intros Hp Hrs. split; [|apply vegetarianOrVegan_iff].
  rewrite interpret_parsed with (parsed := JArr rs) by exact Hp. unfold dietFilter.
  change (isRestricted (js "vegetarian")) with true. simpl.
  now rewrite (filterM_records Hrs).
Qed.

(** The example of the specification: of the two records only the first
    one is kept. *)
Lemma C2_vegetarian_filter_witness :
  JSON_parse (sanitize two_records) = Some (JArr [record ["Vegan"]; record ["Meat"]]) /\
  interpret two_records (js "vegetarian") = Filtered (JArr [record ["Vegan"]]).
Proof.
  split; [reflexivity|].
  apply (@C2_vegetarian_filter two_records [record ["Vegan"]; record ["Meat"]]).
  - reflexivity.
  - repeat constructor.
Defined.

(** C3: when the sanitized answer is not JSON, interpretation ends in the
    parse error (a syntax error of the text, not a partial list), and
    [generateRecipes] leaves the recipe list at its prior value, reports
    the invalid answer and clears the busy flag. *)
Theorem C3_parse_error_keeps_recipes
    (model : jsstring -> Completion jsstring) (profile : UserProfile)
    (availableIngredients text : jsstring) (st : State) :
  model (buildPrompt availableIngredients) = Normal text ->
  JSON_parse (sanitize text) = None ->
  Json.run (sanitize text) = Json.PErr /\
  interpret text (dietType profile) = ParseError (sanitize text) /\
  recipes (generateRecipes model profile availableIngredients st) = recipes st /\
  toasts (generateRecipes model profile availableIngredients st) =
    toasts st ++ [ToastInvalidJson] /\
  isGenerating (generateRecipes model profile availableIngredients st) = false.
Proof.
  intros Hm Hp. split.
  - unfold JSON_parse in Hp. pose proof (run_no_fuel (sanitize text)) as Hf.
    destruct (Json.run (sanitize text)); [discriminate|reflexivity|congruence].
  - split; [unfold interpret; now rewrite Hp|].
    now rewrite generate_parse_error with (text := text) by assumption.
Qed.

(** On the first attempt the list stays empty. *)
Lemma C3_parse_error_keeps_recipes_witness :
  recipes (generateRecipes (fun _ => Normal (js "Here are 3 recipes: [")) 
             (mkProfile (js "vegan") []) (js "rice") initialState) = JArr [] /\
  toasts (generateRecipes (fun _ => Normal (js "Here are 3 recipes: ["))
             (mkProfile (js "vegan") []) (js "rice") initialState) =
    [ToastInvalidJson].
Proof.
  destruct (@C3_parse_error_keeps_recipes
              (fun _ => Normal (js "Here are 3 recipes: ["))
              (mkProfile (js "vegan") []) (js "rice")
              (js "Here are 3 recipes: [") initialState eq_refl eq_refl)
    as (_ & _ & Hr & Ht & _).
  split; [exact Hr|exact Ht].
Defined.

(** C4 (as the specification states it, refuted): sanitization does not
    only remove the enclosing markers.  A marker inside the fenced text is
    removed too, so the sanitized text is not the text between the
    markers. *)
Lemma C4_interior_marker_removed :
  sanitize_spec (fenced interior_fence) = interior_fence /\
  sanitize (fenced interior_fence) = jsq "['ab']" /\
  sanitize (fenced interior_fence) <> sanitize_spec (fenced interior_fence).
Proof. repeat split; try reflexivity. discriminate. Qed.

(** C4 (amended): interpreting the fenced text gives the same result as
    interpreting the inner text; sanitization removes every marker of the
    text, not only the enclosing ones, and a text without three backticks
    in a row passes unchanged apart from the trimming. *)
Theorem C4_fenced_same_result (t dietType : jsstring) :
  interpret (fenced t) dietType = interpret t dietType /\
  (forall profile availableIngredients st,
     generateRecipes (fun _ => Normal (fenced t)) profile availableIngredients st =
     generateRecipes (fun _ => Normal t) profile availableIngredients st) /\
  sanitize (fenced t) = sanitize t /\
  includes fence (sanitize t) = false /\
  (includes fence t = false -> sanitize t = trim t).
Proof.
  split; [apply interpret_fenced|]. split; [|split; [|split]].
  - intros profile availableIngredients st. unfold generateRecipes.
    now rewrite interpret_fenced.
  - unfold sanitize. now rewrite removeFences_fenced.
  - apply sanitize_no_fence.
  - intros H. unfold sanitize, removeFences. now rewrite replace_fence_free.
Qed.

Lemma C4_fenced_same_result_witness :
  includes fence (js "  [1, 2] ") = false /\
  sanitize (js "  [1, 2] ") = js "[1, 2]" /\
  interpret (fenced (js "  [1, 2] ")) (js "omnivore") =
  Filtered (JArr [JNum (js "1"); JNum (js "2")]).
Proof.
  destruct (C4_fenced_same_result (js "  [1, 2] ") (js "omnivore"))
    as (Hi & _ & _ & _ & Ht).
  split; [reflexivity|]. split.
  - rewrite (Ht eq_refl). reflexivity.
  - rewrite Hi. reflexivity.
Defined.

(** C5: whatever the diet type, the filtered output consists of records
    of the parsed batch themselves: it is the selection of the batch at
    strictly increasing positions, so no record is made up, changed,
    repeated or moved. *)
Theorem C5_output_selects_input
    (text dietType : jsstring) (rs : list JsValue) (v : JsValue) :
  JSON_parse (sanitize text) = Some (JArr rs) ->
  interpret text dietType = Filtered v ->
  exists idxs,
    v = JArr (select rs idxs) /\
    StronglySorted lt idxs /\
    Forall (fun i => (i < List.length rs)%nat) idxs.
Proof.
  intros Hp. rewrite interpret_parsed with (parsed := JArr rs) by exact Hp. unfold dietFilter.
  destruct (isRestricted dietType).
  - simpl. destruct (filterM keepRecipe rs) as [out|] eqn:E; [|discriminate].
    simpl. intros [= <-].
    destruct (filterM_selects _ _ E) as (idxs & -> & Hs & Hb).
    now exists idxs.
  - intros [= <-]. exists (seq 0 (List.length rs)). repeat split.
    + now rewrite select_all.
    + apply sorted_seq.
    + apply Forall_forall. intros i Hi. apply in_seq in Hi. lia.
Qed.

Lemma C5_output_selects_input_witness :
  exists idxs,
    JArr [record ["Vegetarian"]; record ["Keto"; "Vegan"]] =
      JArr (select [record ["Vegetarian"]; record ["vegan"]; record ["Keto"; "Vegan"]] idxs) /\
    StronglySorted lt idxs /\
    Forall (fun i => (i < 3)%nat) idxs.
Proof.
  apply (@C5_output_selects_input mixed_tags (js "vegetarian")
           [record ["Vegetarian"]; record ["vegan"]; record ["Keto"; "Vegan"]]
           (JArr [record ["Vegetarian"]; record ["Keto"; "Vegan"]]));
    reflexivity.
Defined.

(** C6: the prompt is the fixed template around the ingredient string;
    for the empty string it contains the text no ingredients, for any
    other string it contains that string as it is.  [buildPrompt] is a
    total function of the string alone. *)
Theorem C6_prompt_contains_ingredients (s : jsstring) :
  buildPrompt s = prompt_head ++ ingredientsOrDefault s ++ prompt_tail /\
  (s = [] -> includes (js "no ingredients") (buildPrompt s) = true) /\
  (s <> [] -> includes s (buildPrompt s) = true).
Proof.
  split; [reflexivity|split].
  - intros ->. apply (includes_middle prompt_head (js "no ingredients") prompt_tail).
  - intros Hs. destruct s as [|c r]; [congruence|].
    apply (includes_middle prompt_head (c :: r) prompt_tail).
Qed.

Lemma C6_prompt_contains_ingredients_witness :
  includes (js "no ingredients") (buildPrompt []) = true /\
  includes (js "rice, beans") (buildPrompt (js "rice, beans")) = true.
Proof.
  split.
  - apply (proj1 (proj2 (C6_prompt_contains_ingredients []))). reflexivity.
  - apply (proj2 (proj2 (C6_prompt_contains_ingredients (js "rice, beans")))).
    discriminate.
Defined.

(** C7: for a diet type that is neither vegetarian nor vegan the output is
    the whole parsed value, nothing removed, and it becomes the recipe
    list; for a batch the success toast counts all its records. *)
Theorem C7_unrestricted_keeps_all
    (model : jsstring -> Completion jsstring) (profile : UserProfile)
    (availableIngredients text : jsstring) (st : State) (parsed : JsValue) :
  isRestricted (dietType profile) = false ->
  model (buildPrompt availableIngredients) = Normal text ->
  JSON_parse (sanitize text) = Some parsed ->
  interpret text (dietType profile) = Filtered parsed /\
  recipes (generateRecipes model profile availableIngredients st) = parsed /\
  (forall rs, parsed = JArr rs ->
     toasts (generateRecipes model profile availableIngredients st) =
       toasts st ++ [ToastGenerated (INumber (List.length rs))]).
Proof.
  intros Hd Hm Hp.
  assert (Hi : interpret text (dietType profile) = Filtered parsed).
  { rewrite interpret_parsed with (parsed := parsed) by exact Hp.
    unfold dietFilter. now rewrite Hd. }
  split; [exact Hi|]. split.
  - now apply generate_filtered_recipes with (text := text).
  - intros rs ->.
    now rewrite generate_array with (text := text) (out := rs) by assumption.
Qed.

(** The two records of the example are both kept for an omnivore. *)
Lemma C7_unrestricted_keeps_all_witness :
  interpret two_records (js "omnivore") =
    Filtered (JArr [record ["Vegan"]; record ["Meat"]]) /\
  recipes (generateRecipes (fun _ => Normal two_records)
             (mkProfile (js "omnivore") []) [] initialState) =
    JArr [record ["Vegan"]; record ["Meat"]].
Proof.
  destruct (@C7_unrestricted_keeps_all (fun _ => Normal two_records)
              (mkProfile (js "omnivore") []) [] two_records initialState
              (JArr [record ["Vegan"]; record ["Meat"]]) eq_refl eq_refl eq_refl)
    as (Hi & Hr & _).
  split; [exact Hi|exact Hr].
Defined.

(** C8: the text of the empty array, bare or fenced, is interpreted
    without error for every diet type and gives the empty list, which is
    not the parse error; the recipe list becomes empty and the success
    toast reports no recipe. *)
Theorem C8_empty_array_is_valid
    (profile : UserProfile) (availableIngredients : jsstring) (st : State) :
  interpret (js "[]") (dietType profile) = Filtered (JArr []) /\
  interpret (fenced (js "[]")) (dietType profile) = Filtered (JArr []) /\
  interpret (fence_json ++ nl ++ js "[]" ++ nl ++ fence) (dietType profile) =
    Filtered (JArr []) /\
  (forall cleanText, interpret (js "[]") (dietType profile) <> ParseError cleanText) /\
  generateRecipes (fun _ => Normal (js "[]")) profile availableIngredients st =
  {| recipes := JArr []; isGenerating := false;
     toasts := toasts st ++ [ToastGenerated (INumber 0)];
     console := console st |}.
Proof.
  assert (Hi : interpret (js "[]") (dietType profile) = Filtered (JArr [])).
  { unfold interpret.
    change (JSON_parse (sanitize (js "[]"))) with (Some (JArr [])).
    unfold dietFilter. now destruct (isRestricted (dietType profile)). }
  split; [exact Hi|]. split; [now rewrite interpret_fenced|].
  split.
  { unfold interpret.
    change (JSON_parse (sanitize (fence_json ++ nl ++ js "[]" ++ nl ++ fence)))
      with (Some (JArr [])).
    unfold dietFilter. now destruct (isRestricted (dietType profile)). }
  split; [rewrite Hi; discriminate|].
  now rewrite generate_array with (text := js "[]") (out := []).
Qed.

(** C9 (in its general form, refuted): a valid JSON text with
    a marker inside a string value whose parsed result is the same after
    sanitization, because a later member with the same key overrides the
    value. *)
Lemma C9_overridden_value_same_result :
  includes fence duplicate_key = true /\
  JSON_parse duplicate_key = Some (JObj [(js "k", JNum (js "1"))]) /\
  sanitize duplicate_key <> duplicate_key /\
  JSON_parse (sanitize duplicate_key) = JSON_parse duplicate_key.
Proof. repeat split; try reflexivity. discriminate. Qed.

(** C9 (amended): sanitization deletes the markers wherever they occur,
    so that no run of three backticks is left, and then trims; a text
    that contains a marker is therefore changed.  When the text is valid
    JSON in which no object repeats a key, the sanitized text is valid
    JSON too and its parsed result differs from the parsed result of the
    text.  (With a repeated key the changed value can be overridden, and
    the two results can be the same.) *)
Theorem C9_markers_removed_everywhere (t : jsstring) (w : Json.Tree) :
  sanitize t = trim (removeFences t) /\
  includes fence (sanitize t) = false /\
  (includes fence t = true -> sanitize t <> t) /\
  (Json.run t = Json.POk w [] ->
   distinct_keys w = true ->
   includes fence t = true ->
   exists v', JSON_parse t = Some (Json.build w) /\
              JSON_parse (sanitize t) = Some v' /\
              v' <> Json.build w).
Proof.
  split; [reflexivity|]. split; [apply sanitize_no_fence|]. split.
  - intros H E. rewrite <- E, sanitize_no_fence in H. discriminate.
  - intros Hr Hd Hf.
    destruct (@sanitized_value_differs t w Hr Hd Hf) as (w' & Hr' & Hne).
    exists (Json.build w'). unfold JSON_parse. rewrite Hr, Hr'.
    repeat split. exact Hne.
Qed.

Lemma C9_markers_removed_everywhere_witness :
  sanitize interior_fence <> interior_fence /\
  exists v', JSON_parse interior_fence = Some (JArr [JStr (js "a```b")]) /\
             JSON_parse (sanitize interior_fence) = Some v' /\
             v' <> JArr [JStr (js "a```b")].
Proof.
  destruct (C9_markers_removed_everywhere interior_fence
              (Json.TArr [Json.TStr (js "a```b")])) as (_ & _ & Ht & Hs).
  split; [exact (Ht eq_refl)|].
  exact (Hs eq_refl eq_refl eq_refl).
Defined.

(** C10 (in its general form, refuted): an element whose
    [tags] is a string, not an array, does not make the filter fault;
    [String.prototype.includes] answers, and the record is kept. *)
Lemma C10_string_tags_no_fault :
  JSON_parse (sanitize string_tags) =
    Some (JArr [JObj [(js "tags", JStr (js "Vegan"))]]) /\
  isArray (own_tags (JObj [(js "tags", JStr (js "Vegan"))])) = false /\
  interpret string_tags (js "vegan") =
    Filtered (JArr [JObj [(js "tags", JStr (js "Vegan"))]]).
Proof. repeat split. Qed.

(** C10 (amended): when the diet type is vegetarian or vegan and some
    element of the parsed array has a [tags] that is neither an array nor
    a string (or has none), the filter faults with a type error; the
    surrounding handler catches it, the generic failure is reported, the
    recipe list keeps its value and the busy flag is cleared. *)
Theorem C10_malformed_record_faults
    (model : jsstring -> Completion jsstring) (profile : UserProfile)
    (availableIngredients text : jsstring) (st : State) (rs : list JsValue) :
  isRestricted (dietType profile) = true ->
  model (buildPrompt availableIngredients) = Normal text ->
  JSON_parse (sanitize text) = Some (JArr rs) ->
  Exists (fun r => isArray (own_tags r) = false /\
                   isString (own_tags r) = false) rs ->
  interpret text (dietType profile) = Fault TypeError /\
  recipes (generateRecipes model profile availableIngredients st) = recipes st /\
  toasts (generateRecipes model profile availableIngredients st) =
    toasts st ++ [ToastFailed] /\
  isGenerating (generateRecipes model profile availableIngredients st) = false.
Proof.
  intros Hd Hm Hp Hex.
  assert (Hi : interpret text (dietType profile) = Fault TypeError).
  { rewrite interpret_parsed with (parsed := JArr rs) by exact Hp.
    unfold dietFilter. rewrite Hd. simpl.
    rewrite filterM_throws; [reflexivity|].
    eapply Exists_impl; [|exact Hex].
    intros r [Ha Hs]. now apply keepRecipe_throws. }
  split; [exact Hi|].
  now rewrite generate_fault with (text := text) (e := TypeError).
Qed.

Lemma C10_malformed_record_faults_witness :
  interpret missing_tags (js "vegetarian") = Fault TypeError /\
  recipes (generateRecipes (fun _ => Normal missing_tags)
             (mkProfile (js "vegetarian") []) [] initialState) = JArr [] /\
  toasts (generateRecipes (fun _ => Normal missing_tags)
             (mkProfile (js "vegetarian") []) [] initialState) = [ToastFailed].
Proof.
  destruct (@C10_malformed_record_faults (fun _ => Normal missing_tags)
              (mkProfile (js "vegetarian") []) [] missing_tags initialState
              [record ["Vegan"]; JObj [(js "name", JStr (js "Soup"))]]
              eq_refl eq_refl eq_refl)
    as (Hi & Hr & Ht & _).
  - apply Exists_cons_tl, Exists_cons_hd. split; reflexivity.
  - repeat split; assumption.
Defined.

(* ================================================================== *)
(** ** Further properties of [generateRecipes] *)

Section Generate.

Variable model : jsstring -> Completion jsstring.
Variable profile : UserProfile.
Variable availableIngredients : jsstring.
Variable st : State.

Local Abbreviation final := (generateRecipes model profile availableIngredients st).

(** Under a restricted diet the filter gives an array or throws. *)
Lemma restricted_filtered_array (text dietType : jsstring) (v : JsValue) :
  isRestricted dietType = true ->
  interpret text dietType = Filtered v -> exists out, v = JArr out.
Proof.
  unfold interpret, dietFilter. intros ->.
  destruct (JSON_parse (sanitize text)) as [parsed|]; [|discriminate].
  destruct parsed as [| | | |elems|]; simpl; try discriminate.
  destruct (filterM keepRecipe elems) as [kept|]; simpl; [|discriminate].
  intros [= <-]. now exists kept.
Qed.

Lemma restricted_outcome :
  isRestricted (dietType profile) = true ->
  (recipes final = recipes st /\
   (toasts final = toasts st ++ [ToastInvalidJson] \/
    toasts final = toasts st ++ [ToastFailed])) \/
  (exists out, recipes final = JArr out /\
     toasts final = toasts st ++ [ToastGenerated (INumber (List.length out))] /\
     console final = console st).
Proof.
  intros Hd. unfold generateRecipes.
  destruct (model (buildPrompt availableIngredients)) as [text|e]; simpl.
  - destruct (interpret text (dietType profile)) as [clean|e|v] eqn:Ei; simpl.
    + left. split; [reflexivity|now left].
    + left. split; [reflexivity|now right].
    + destruct (restricted_filtered_array _ _ Hd Ei) as [out ->].
      right. exists out. simpl. repeat split.
  - left. split; [reflexivity|now right].
Qed.

(** X1: whatever the model does, a call ends with the busy flag cleared,
    adds exactly one toast, and writes at most one line to the console. *)
Theorem X1_one_toast_flag_cleared :
  let final := generateRecipes model profile availableIngredients st in
  isGenerating final = false /\
  (exists t, toasts final = toasts st ++ [t]) /\
  (console final = console st \/ exists e, console final = console st ++ [e]).
Proof.
  intros final. subst final.
  unfold generateRecipes.
  destruct (model (buildPrompt availableIngredients)) as [text|e]; simpl.
  - destruct (interpret text (dietType profile)) as [clean|e|v]; simpl.
    + repeat split; eauto.
    + repeat split; eauto.
    + destruct (interpolate_length v) as [found|e]; simpl; repeat split; eauto.
  - repeat split; eauto.
Qed.

(** X2: when the model call fails, the recipes keep their value, the
    generic failure is reported and the error is logged. *)
Theorem X2_model_failure (e : JsError) :
  model (buildPrompt availableIngredients) = Throw e ->
  final = {| recipes := recipes st; isGenerating := false;
             toasts := toasts st ++ [ToastFailed];
             console := console st ++ [LogGenerateError e] |}.
Proof. intros H. unfold generateRecipes. now rewrite H. Qed.

(** X3: under a vegetarian or vegan diet a call is all or nothing: either
    the recipes keep their value and a failure is reported, or they become
    an array and the success toast reports the length of that array. *)
Theorem X3_restricted_all_or_nothing :
  isRestricted (dietType profile) = true ->
  (recipes final = recipes st /\
   (toasts final = toasts st ++ [ToastInvalidJson] \/
    toasts final = toasts st ++ [ToastFailed])) \/
  (exists out, recipes final = JArr out /\
     toasts final = toasts st ++ [ToastGenerated (INumber (List.length out))] /\
     console final = console st).
Proof. exact restricted_outcome. Qed.

(** X4: under any other diet it is not: when the answer is the JSON value
    [null], the recipe list is replaced by [null] before the length of the
    result is read, and the failure toast is shown all the same. *)
Theorem X4_unrestricted_null (text : jsstring) :
  isRestricted (dietType profile) = false ->
  model (buildPrompt availableIngredients) = Normal text ->
  JSON_parse (sanitize text) = Some JNull ->
  final = {| recipes := JNull; isGenerating := false;
             toasts := toasts st ++ [ToastFailed];
             console := console st ++ [LogGenerateError TypeError] |}.
Proof.
  intros Hd Hm Hp. unfold generateRecipes, interpret, dietFilter.
  now rewrite Hm, Hp, Hd.
Qed.

(** X5: under a vegetarian or vegan diet the recipe list stays an array,
    whatever the model answers. *)
Theorem X5_restricted_keeps_array (rs : list JsValue) :
  isRestricted (dietType profile) = true ->
  recipes st = JArr rs ->
  exists rs', recipes final = JArr rs'.
Proof.
  intros Hd Hs. destruct (restricted_outcome Hd) as [[H _]|(out & H & _)].
  - exists rs. now rewrite H.
  - now exists out.
Qed.

(** X6: under a vegetarian or vegan diet valid JSON that is not an array
    (an object around the list, say) ends in the generic failure, and the
    recipes keep their value. *)
Theorem X6_restricted_not_an_array (text : jsstring) (parsed : JsValue) :
  isRestricted (dietType profile) = true ->
  model (buildPrompt availableIngredients) = Normal text ->
  JSON_parse (sanitize text) = Some parsed ->
  (forall elems, parsed <> JArr elems) ->
  interpret text (dietType profile) = Fault TypeError /\
  final = {| recipes := recipes st; isGenerating := false;
             toasts := toasts st ++ [ToastFailed];
             console := console st ++ [LogGenerateError TypeError] |}.
Proof.
  intros Hd Hm Hp Hn.
  assert (Hi : interpret text (dietType profile) = Fault TypeError).
  { unfold interpret, dietFilter. rewrite Hp, Hd.
    destruct parsed; try reflexivity. now destruct (Hn elems). }
  split; [exact Hi|]. unfold generateRecipes. now rewrite Hm, Hi.
Qed.

End Generate.

Lemma X2_model_failure_witness :
  recipes (generateRecipes (fun _ => Throw ModelError)
             (mkProfile (js "vegan") []) (js "rice")
             (setRecipes (JArr [record ["Vegan"]]) initialState)) =
  JArr [record ["Vegan"]].
Proof.
  rewrite (@X2_model_failure (fun _ => Throw ModelError)
             (mkProfile (js "vegan") []) (js "rice")
             (setRecipes (JArr [record ["Vegan"]]) initialState)
             ModelError eq_refl).
  reflexivity.
Defined.

Lemma X3_restricted_all_or_nothing_witness :
  exists out,
    recipes (generateRecipes (fun _ => Normal mixed_tags)
               (mkProfile (js "vegan") []) [] initialState) = JArr out /\
    toasts (generateRecipes (fun _ => Normal mixed_tags)
              (mkProfile (js "vegan") []) [] initialState) =
      [ToastGenerated (INumber (List.length out))].
Proof.
  destruct (@X3_restricted_all_or_nothing (fun _ => Normal mixed_tags)
              (mkProfile (js "vegan") []) [] initialState eq_refl)
    as [[_ [H|H]]|(out & Hr & Ht & _)].
  - discriminate H.
  - discriminate H.
  - exists out. split; [exact Hr|exact Ht].
Defined.

Lemma X4_unrestricted_null_witness :
  recipes (generateRecipes (fun _ => Normal (fenced (js " null ")))
             (mkProfile (js "omnivore") []) []
             (setRecipes (JArr [record ["Vegan"]]) initialState)) = JNull.
Proof.
  rewrite (@X4_unrestricted_null (fun _ => Normal (fenced (js " null ")))
             (mkProfile (js "omnivore") []) []
             (setRecipes (JArr [record ["Vegan"]]) initialState)
             (fenced (js " null ")) eq_refl eq_refl eq_refl).
  reflexivity.
Defined.

Lemma X5_restricted_keeps_array_witness :
  exists rs',
    recipes (generateRecipes (fun _ => Normal (js "null"))
               (mkProfile (js "vegetarian") []) [] initialState) = JArr rs'.
Proof.
  exact (@X5_restricted_keeps_array (fun _ => Normal (js "null"))
           (mkProfile (js "vegetarian") []) [] initialState [] eq_refl eq_refl).
Defined.

Lemma X6_restricted_not_an_array_witness :
  interpret (jsq "{'recipes':[{'tags':['Vegan']}]}") (js "vegan") = Fault TypeError.
Proof.
  refine (proj1 (@X6_restricted_not_an_array
            (fun _ => Normal (jsq "{'recipes':[{'tags':['Vegan']}]}"))
            (mkProfile (js "vegan") []) [] initialState
            (jsq "{'recipes':[{'tags':['Vegan']}]}")
            (JObj [(js "recipes", JArr [record ["Vegan"]])])
            eq_refl eq_refl eq_refl _)).
  intros elems. discriminate.
Defined.



(** X8: the model is asked one question, the prompt built from the
    ingredient text: two models that answer this prompt alike give the same
    result.  Neither the profile nor the state reaches the model. *)
Theorem X8_model_asked_the_prompt
    (m1 m2 : jsstring -> Completion jsstring) (profile : UserProfile)
    (availableIngredients : jsstring) (st : State) :
  m1 (buildPrompt availableIngredients) = m2 (buildPrompt availableIngredients) ->
  generateRecipes m1 profile availableIngredients st =
  generateRecipes m2 profile availableIngredients st.
Proof. intros H. unfold generateRecipes. now rewrite H. Qed.

Lemma X8_model_asked_the_prompt_witness :
  generateRecipes
    (fun p => if JsString.eqb p (buildPrompt (js "rice")) then Normal two_records
              else Throw ModelError)
    (mkProfile (js "vegan") []) (js "rice") initialState =
  generateRecipes (fun _ => Normal two_records)
    (mkProfile (js "vegan") []) (js "rice") initialState.
Proof.
  apply (@X8_model_asked_the_prompt
           (fun p => if JsString.eqb p (buildPrompt (js "rice"))
                     then Normal two_records else Throw ModelError)
           (fun _ => Normal two_records)
           (mkProfile (js "vegan") []) (js "rice") initialState).
  reflexivity.
Defined.

(* ================================================================== *)
(** ** Further properties of the prompt *)

(** X9: two ingredient texts give the same prompt exactly when they are
    equal after the default is put in: different texts give different
    prompts, except that the empty text and the text "no ingredients"
    share one. *)
Theorem X9_prompt_injective (s1 s2 : jsstring) :
  (buildPrompt s1 = buildPrompt s2 <->
   ingredientsOrDefault s1 = ingredientsOrDefault s2) /\
  (buildPrompt s1 = buildPrompt s2 -> s1 <> [] -> s2 <> [] -> s1 = s2) /\
  buildPrompt [] = buildPrompt (js "no ingredients").
Proof.
  assert (Hiff : buildPrompt s1 = buildPrompt s2 <->
                 ingredientsOrDefault s1 = ingredientsOrDefault s2).
  { unfold buildPrompt. split; [|now intros ->].
    intros H. apply app_inv_head in H. now apply app_inv_tail in H. }
  split; [exact Hiff|]. split; [|reflexivity].
  intros H H1 H2. apply Hiff in H.
  destruct s1; [congruence|]. destruct s2; [congruence|]. exact H.
Qed.

Lemma X9_prompt_injective_witness :
  buildPrompt [] = buildPrompt (js "no ingredients") /\
  (buildPrompt (js "rice") = buildPrompt (js "beans") -> False).
Proof.
  split.
  - exact (proj2 (proj1 (X9_prompt_injective [] (js "no ingredients"))) eq_refl).
  - intros H.
    apply (proj1 (proj1 (X9_prompt_injective (js "rice") (js "beans")))) in H.
    discriminate H.
Defined.

(* ================================================================== *)
(** ** Further properties of the sanitization *)

Section Sanitize.

Import Json.

Local Abbreviation rf := (replaceFences 0).

Lemma trimStart_head (c : N) (x : jsstring) :
  isTrimChar c = false -> trimStart (c :: x) = c :: x.
Proof. intros H. simpl. now rewrite H. Qed.

Lemma trimStart_shape (s : jsstring) :
  trimStart s = [] \/ exists c x, trimStart s = c :: x /\ isTrimChar c = false.
Proof.
  induction s as [|c s IH]; [now left|]. simpl.
  destruct (isTrimChar c) eqn:E; [exact IH|]. right. now exists c, s.
Qed.

Lemma trimEnd_idem (s : jsstring) : trimEnd (trimEnd s) = trimEnd s.
Proof.
  induction s as [|c s IH]; [reflexivity|]. cbn [trimEnd].
  destruct (trimEnd s) as [|d r] eqn:E.
  - destruct (isTrimChar c) eqn:Ec; [reflexivity|]. cbn [trimEnd]. now rewrite Ec.
  - change (trimEnd (c :: d :: r))
      with (match trimEnd (d :: r) with
            | [] => if isTrimChar c then [] else [c]
            | e :: r' => c :: e :: r'
            end).
    now rewrite IH.
Qed.

(** After a code unit that [trim] keeps, the end is trimmed and the head
    stays. *)
Lemma trimEnd_head (c : N) (x : jsstring) :
  isTrimChar c = false -> exists y, trimEnd (c :: x) = c :: y.
Proof.
  intros H. cbn [trimEnd]. destruct (trimEnd x) as [|d r].
  - rewrite H. now exists [].
  - now exists (d :: r).
Qed.

Lemma trim_idem (s : jsstring) : trim (trim s) = trim s.
Proof.
  unfold trim. destruct (trimStart_shape s) as [->|(c & x & -> & Hc)];
    [reflexivity|].
  destruct (@trimEnd_head c x Hc) as [y Ey]. rewrite Ey.
  rewrite (@trimStart_head c y Hc), <- Ey. apply trimEnd_idem.
Qed.

Lemma trim_head (c : N) (x : jsstring) :
  isTrimChar c = false -> exists y, trim (c :: x) = c :: y.
Proof.
  intros H. unfold trim. rewrite (@trimStart_head c x H). now apply trimEnd_head.
Qed.

(** Trimming a valid JSON text leaves its parse as it is. *)
Lemma run_trim (x : jsstring) (w : Tree) :
  run x = POk w [] -> run (trim x) = POk w [].
Proof.
  unfold run. intros H.
  destruct (parse_value (fuel_for x) x) as [w0 rest| |] eqn:E; try discriminate.
  destruct (skip_ws rest) eqn:Er; [|discriminate]. injection H as ->.
  pose proof (skip_ws_nil _ Er) as Hrest.
  destruct (proj1 (ext_parse (fuel_for x)) _ _ _ E) as (a & Ea & Hok & X).
  specialize (X [] eq_refl). rewrite app_nil_r in X.
  destruct (skip_ws_split a) as (ws & Ea2 & Hws).
  destruct (skip_ws a) as [|c r] eqn:Esk.
  { rewrite <- parse_value_skip, Esk in X. discriminate X. }
  pose proof (value_start _ _ X Esk) as [Hc _].
  assert (Hs : trim x = c :: r).
  { unfold trim. rewrite Ea, Ea2, <- app_assoc.
    rewrite (trimStart_ws _ Hws). cbn [app trimStart]. rewrite Hc.
    destruct Hok as (a0 & q & Ea3 & Hq).
    destruct (@exists_last _ (c :: r)) as (y0 & q' & Ey); [discriminate|].
    rewrite Ey in Ea2. rewrite Ea2, app_assoc in Ea3.
    apply app_inj_tail in Ea3 as [_ ->].
    change (c :: r ++ rest) with ((c :: r) ++ rest).
    rewrite Ey, <- app_assoc. cbn [app]. now apply trimEnd_tail. }
  rewrite Hs. rewrite <- parse_value_skip, Esk in X.
  now rewrite (fuel_any _ _ X).
Qed.

Lemma run_rest (x : jsstring) (w : Tree) (r : jsstring) :
  run x = POk w r -> r = [].
Proof.
  unfold run. destruct (parse_value (fuel_for x) x) as [w0 rest| |]; try discriminate.
  destruct (skip_ws rest); [|discriminate]. now intros [= _ <-].
Qed.

Lemma JSON_parse_run (x : jsstring) (v : JsValue) :
  JSON_parse x = Some v -> exists w, run x = POk w [] /\ v = build w.
Proof.
  unfold JSON_parse. destruct (run x) as [w r| |] eqn:E; try discriminate.
  intros [= <-]. exists w. split; [|reflexivity].
  pose proof (@run_rest x w r E) as Hr. subst r. reflexivity.
Qed.

End Sanitize.

(** X10: sanitizing twice is sanitizing once, and a sanitized text is
    interpreted as the text is. *)
Theorem X10_sanitize_idempotent (t dietType : jsstring) :
  sanitize (sanitize t) = sanitize t /\
  interpret (sanitize t) dietType = interpret t dietType.
Proof.
  assert (H : sanitize (sanitize t) = sanitize t).
  { unfold sanitize at 1. unfold removeFences.
    rewrite (@replace_fence_free (sanitize t) (sanitize_no_fence t)).
    unfold sanitize. apply trim_idem. }
  split; [exact H|]. unfold interpret. now rewrite H.
Qed.

(** X11: a fence without the word json around a text that does not begin
    with that word is removed like the fence with it. *)
Theorem X11_bare_fence (t dietType : jsstring) :
  startsWith (js "json") t = false ->
  sanitize (fence ++ t ++ fence) = sanitize t /\
  interpret (fence ++ t ++ fence) dietType = interpret t dietType.
Proof.
  intros H.
  assert (E : removeFences (fence ++ t ++ fence) = removeFences t).
  { unfold removeFences.
    assert (HJ : startsWith fence_json (fence ++ t ++ fence) = false).
    { change fence_json with (fence ++ js "json").
      rewrite startsWith_app_cancel, startsWith_app_foreign; [exact H|discriminate|].
      intros x y Hx Hy. rewrite fence_eq in Hy. simpl in Hx, Hy.
      intuition (subst; discriminate). }
    rewrite fence_eq in *. cbn [app] in *. rewrite replace_0_cons, HJ.
    change (startsWith [96; 96; 96] (96 :: 96 :: 96 :: t ++ [96; 96; 96])) with true.
    cbv iota. cbn [replaceFences].
    apply (replace_closing_fence t (k := 0)). lia. }
  assert (Es : sanitize (fence ++ t ++ fence) = sanitize t)
    by (unfold sanitize; now rewrite E).
  split; [exact Es|]. unfold interpret. now rewrite Es.
Qed.

Lemma X11_bare_fence_witness :
  sanitize (fence ++ (nl ++ two_records ++ nl) ++ fence) = two_records.
Proof.
  rewrite (proj1 (@X11_bare_fence (nl ++ two_records ++ nl) [] eq_refl)).
  reflexivity.
Defined.

(** X12: sanitization never spoils a valid answer: when the text is valid
    JSON, so is the sanitized text, and the parse error path is not
    taken. *)
Theorem X12_valid_stays_valid (t dietType : jsstring) (v : JsValue) :
  JSON_parse t = Some v ->
  (exists v', JSON_parse (sanitize t) = Some v') /\
  (forall cleanText, interpret t dietType <> ParseError cleanText).
Proof.
  intros H. destruct (@JSON_parse_run t v H) as (w & Hr & _).
  destruct (@sanitized_run t w Hr) as (w' & Hr' & _).
  assert (Hp : JSON_parse (sanitize t) = Some (Json.build w'))
    by (unfold JSON_parse; now rewrite Hr').
  split; [now exists (Json.build w')|].
  intros cleanText. unfold interpret. rewrite Hp.
  destruct (dietFilter dietType (Json.build w')); discriminate.
Qed.

Lemma X12_valid_stays_valid_witness :
  exists v', JSON_parse (sanitize interior_fence) = Some v'.
Proof.
  exact (proj1 (@X12_valid_stays_valid interior_fence []
                  (JArr [JStr (js "a```b")]) eq_refl)).
Defined.

(** X13: on valid JSON without three backticks in a row sanitization is
    invisible: the sanitized text parses to the value of the text. *)
Theorem X13_valid_fence_free_unchanged (t : jsstring) (v : JsValue) :
  JSON_parse t = Some v ->
  includes fence t = false ->
  JSON_parse (sanitize t) = Some v.
Proof.
  intros H Hf. destruct (@JSON_parse_run t v H) as (w & Hr & ->).
  unfold sanitize, removeFences. rewrite (@replace_fence_free t Hf).
  unfold JSON_parse. now rewrite (@run_trim t w Hr).
Qed.

Lemma X13_valid_fence_free_unchanged_witness :
  JSON_parse (sanitize (nl ++ js "  " ++ two_records ++ nl)) =
  Some (JArr [record ["Vegan"]; record ["Meat"]]).
Proof.
  exact (@X13_valid_fence_free_unchanged (nl ++ js "  " ++ two_records ++ nl)
           (JArr [record ["Vegan"]; record ["Meat"]]) eq_refl eq_refl).
Defined.

(* ================================================================== *)
(** ** Answers that are not bare JSON *)

Section NotJson.

Import Json.

Local Arguments N.eqb : simpl never.
Local Arguments N.leb : simpl never.
Local Arguments parse_number : simpl never.
Local Arguments parse_literal : simpl never.

Lemma letter_range (c : N) :
  isLetter c = true -> (65 <= c <= 90) \/ (97 <= c <= 122).
Proof.
  unfold isLetter. intros H. apply orb_true_iff in H as [H|H];
    apply andb_true_iff in H as [H1 H2]; apply N.leb_le in H1, H2; lia.
Qed.

Ltac char_off :=
  repeat match goal with
         | |- context [?a =? ?b] => destruct (N.eqb_spec a b); [lia|]
         | |- context [?a <=? ?b] => destruct (N.leb_spec a b); try lia
         end.

Lemma letter_not_trim (c : N) : isLetter c = true -> isTrimChar c = false.
Proof.
  intros H. apply letter_range in H. unfold isTrimChar. char_off; reflexivity.
Qed.

Lemma letter_not_backtick (c : N) : isLetter c = true -> c <> 96.
Proof. intros H. apply letter_range in H. lia. Qed.

(** No JSON text begins with a letter other than t, f and n. *)
Lemma letter_not_json (c : N) (y : jsstring) :
  isLetter c = true -> c <> 116 -> c <> 102 -> c <> 110 ->
  JSON_parse (c :: y) = None.
Proof.
  intros H Ht Hf Hn. apply letter_range in H.
  unfold JSON_parse, run.
  change (fuel_for (c :: y)) with (S (S (2 * List.length (c :: y)))).
  assert (Hws : isJsonWs c = false) by (unfold isJsonWs; char_off; reflexivity).
  rewrite (@parse_value_head _ c y Hws).
  replace (c =? 91) with false by (symmetry; apply N.eqb_neq; lia).
  replace (c =? 123) with false by (symmetry; apply N.eqb_neq; lia).
  replace (c =? 34) with false by (symmetry; apply N.eqb_neq; lia).
  replace (c =? 116) with false by (symmetry; apply N.eqb_neq; lia).
  replace (c =? 102) with false by (symmetry; apply N.eqb_neq; lia).
  replace (c =? 110) with false by (symmetry; apply N.eqb_neq; lia).
  unfold parse_number.
  replace (c =? 45) with false by (symmetry; apply N.eqb_neq; lia).
  unfold number_tail, parse_int.
  replace (c =? 48) with false by (symmetry; apply N.eqb_neq; lia).
  replace (isDigit c) with false; [reflexivity|].
  symmetry. unfold isDigit. char_off; reflexivity.
Qed.

Lemma prose_sanitized (c : N) (rest : jsstring) :
  isLetter c = true -> exists y, sanitize (c :: rest) = c :: y.
Proof.
  intros H. unfold sanitize, removeFences.
  rewrite (@replace_other c rest (@letter_not_backtick c H)).
  apply trim_head. now apply letter_not_trim.
Qed.

Lemma prose_parse_error (c : N) (rest dietType : jsstring) :
  isLetter c = true -> c <> 116 -> c <> 102 -> c <> 110 ->
  interpret (c :: rest) dietType = ParseError (sanitize (c :: rest)).
Proof.
  intros H Ht Hf Hn. unfold interpret.
  destruct (@prose_sanitized c rest H) as [y ->].
  now rewrite (@letter_not_json c y H Ht Hf Hn).
Qed.

Lemma fence_then_text (s : jsstring) :
  startsWith (js "json") s = false -> sanitize (fence ++ s) = sanitize s.
Proof.
  intros H. unfold sanitize, removeFences.
  assert (HJ : startsWith fence_json (fence ++ s) = false).
  { change fence_json with (fence ++ js "json").
    now rewrite startsWith_app_cancel. }
  rewrite fence_eq in *. cbn [app] in *. rewrite replace_0_cons, HJ.
  reflexivity.
Qed.

End NotJson.

(** X14: an answer that begins with prose (a letter other than t, f and
    n) is rejected as invalid JSON, whatever follows, a fenced list
    included; the recipes keep their value. *)
Theorem X14_prose_first_rejected
    (model : jsstring -> Completion jsstring) (profile : UserProfile)
    (availableIngredients : jsstring) (st : State) (c : N) (rest : jsstring) :
  isLetter c = true -> c <> 116 -> c <> 102 -> c <> 110 ->
  model (buildPrompt availableIngredients) = Normal (c :: rest) ->
  interpret (c :: rest) (dietType profile) = ParseError (sanitize (c :: rest)) /\
  recipes (generateRecipes model profile availableIngredients st) = recipes st /\
  toasts (generateRecipes model profile availableIngredients st) =
    toasts st ++ [ToastInvalidJson].
Proof.
  intros H Ht Hf Hn Hm.
  pose proof (@prose_parse_error c rest (dietType profile) H Ht Hf Hn) as Hi.
  split; [exact Hi|]. unfold generateRecipes. now rewrite Hm, Hi.
Qed.

Lemma X14_prose_first_rejected_witness :
  toasts (generateRecipes
            (fun _ => Normal (js "Here you go: " ++ fenced two_records))
            (mkProfile (js "omnivore") []) [] initialState) = [ToastInvalidJson].
Proof.
  refine (proj2 (proj2 (@X14_prose_first_rejected
            (fun _ => Normal (js "Here you go: " ++ fenced two_records))
            (mkProfile (js "omnivore") []) [] initialState
            72 (js "ere you go: " ++ fenced two_records)
            eq_refl _ _ _ eq_refl))); lia.
Defined.

(** X15: the word after the opening fence is removed only when it is json
    in lower case: a fence with another language tag (JSON, js, ...)
    leaves the tag in the text, and the answer is rejected as invalid
    JSON. *)
Theorem X15_other_language_tag (c : N) (rest dietType : jsstring) :
  isLetter c = true -> c <> 116 -> c <> 102 -> c <> 110 ->
  startsWith (js "json") (c :: rest) = false ->
  exists y, sanitize (fence ++ c :: rest) = c :: y /\
            interpret (fence ++ c :: rest) dietType = ParseError (c :: y).
Proof.
  intros H Ht Hf Hn Hj.
  destruct (@prose_sanitized c rest H) as [y Hy].
  exists y. unfold interpret.
  rewrite (@fence_then_text (c :: rest) Hj), Hy.
  split; [reflexivity|]. now rewrite (@letter_not_json c y H Ht Hf Hn).
Qed.

Lemma X15_other_language_tag_witness :
  exists y,
    sanitize (fence ++ js "JSON" ++ nl ++ two_records ++ nl ++ fence) = 74 :: y /\
    interpret (fence ++ js "JSON" ++ nl ++ two_records ++ nl ++ fence) (js "vegan") =
      ParseError (74 :: y).
Proof.
  refine (@X15_other_language_tag 74
            (js "SON" ++ nl ++ two_records ++ nl ++ fence) (js "vegan")
            eq_refl _ _ _ eq_refl); lia.
Defined.

(* ================================================================== *)
(** ** Further properties of the diet filter *)

Section FilterMore.

Lemma keepRecipe_answers (r : JsValue) :
  (exists b, keepRecipe r = Normal b) <->
  isArray (own_tags r) = true \/ isString (own_tags r) = true.
Proof.
  split.
  - intros [b Hb].
    destruct (isArray (own_tags r)) eqn:Ea; [now left|].
    destruct (isString (own_tags r)) eqn:Es; [now right|].
    rewrite (keepRecipe_throws r Ea Es) in Hb. discriminate.
  - unfold keepRecipe, tagsInclude.
    destruct r as [| | | | |props]; simpl; try (intros [H|H]; discriminate).
    destruct (obj_get props (js "tags")) as [[| | |s|elems|]|]; simpl;
      try (intros [H|H]; discriminate); intros _.
    + destruct (JsString.includes (js "Vegetarian") s); eauto.
    + destruct (existsb (same_string (js "Vegetarian")) elems); eauto.
Qed.

Lemma filterM_answers (rs : list JsValue) :
  (exists out, filterM keepRecipe rs = Normal out) <->
  Forall (fun r => isArray (own_tags r) = true \/ isString (own_tags r) = true) rs.
Proof.
  induction rs as [|r rs IH]; simpl.
  - split; [constructor|]. now exists [].
  - split.
    + intros [out H]. destruct (keepRecipe r) as [b|] eqn:Eb; [|discriminate].
      simpl in H. destruct (filterM keepRecipe rs) as [kept|]; [|discriminate].
      constructor.
      * apply keepRecipe_answers. now exists b.
      * apply IH. now exists kept.
    + intros H. inversion H as [|? ? Hr Hrs]; subst.
      apply keepRecipe_answers in Hr as [b ->]. apply IH in Hrs as [kept ->].
      simpl. eauto.
Qed.

Lemma filterM_keeps (rs out : list JsValue) :
  filterM keepRecipe rs = Normal out -> out = filter keeps rs.
Proof.
  revert out; induction rs as [|r rs IH]; intros out; simpl.
  - now intros [= <-].
  - unfold keeps at 1. destruct (keepRecipe r) as [b|]; [|discriminate]. simpl.
    destruct (filterM keepRecipe rs) as [kept|]; [|discriminate]. simpl.
    intros [= <-]. rewrite (IH kept eq_refl). now destruct b.
Qed.

Lemma filterM_of_kept (l : list JsValue) :
  Forall (fun r => keeps r = true) l -> filterM keepRecipe l = Normal l.
Proof.
  induction 1 as [|r l Hr _ IH]; [reflexivity|]. simpl.
  unfold keeps in Hr. destruct (keepRecipe r) as [[|]|]; try discriminate.
  simpl. now rewrite IH.
Qed.

End FilterMore.

(** X16: under a vegetarian or vegan diet the filter goes through exactly
    when every element of the array has a [tags] that is an array or a
    string; one element without it makes the whole call fail. *)
Theorem X16_filter_succeeds_iff (dietType : jsstring) (rs : list JsValue) :
  isRestricted dietType = true ->
  ((exists v, dietFilter dietType (JArr rs) = Normal v) <->
   Forall (fun r => isArray (own_tags r) = true \/ isString (own_tags r) = true) rs).
Proof.
  intros Hd. unfold dietFilter. rewrite Hd. simpl.
  rewrite <- filterM_answers. split.
  - intros [v H]. destruct (filterM keepRecipe rs) as [kept|]; [|discriminate].
    now exists kept.
  - intros [out ->]. simpl. eauto.
Qed.

Lemma X16_filter_succeeds_iff_witness :
  exists v,
    dietFilter (js "vegan")
      (JArr [record ["Vegan"]; JObj [(js "tags", JStr (js "Vegan, quick"))]]) =
    Normal v.
Proof.
  apply (proj2 (@X16_filter_succeeds_iff (js "vegan")
                  [record ["Vegan"]; JObj [(js "tags", JStr (js "Vegan, quick"))]]
                  eq_refl)).
  constructor; [left; reflexivity|].
  constructor; [right; reflexivity|constructor].
Defined.

(** X17: what the filter returns is the records of the batch on which the
    test of line 94 answers true, in their order, and no more of them than
    the batch has; filtering the result again changes nothing. *)
Theorem X17_filter_idempotent (dietType : jsstring) (rs : list JsValue) (v : JsValue) :
  dietFilter dietType (JArr rs) = Normal v ->
  dietFilter dietType v = Normal v /\
  exists out, v = JArr out /\ (List.length out <= List.length rs)%nat /\
              (isRestricted dietType = true -> out = filter keeps rs).
Proof.
  unfold dietFilter. destruct (isRestricted dietType).
  - simpl. destruct (filterM keepRecipe rs) as [kept|] eqn:E; [|discriminate].
    simpl. intros [= <-]. pose proof (filterM_keeps _ E) as Hk.
    split.
    + simpl. rewrite filterM_of_kept; [reflexivity|].
      rewrite Hk. apply Forall_forall. intros r Hr.
      now apply filter_In in Hr.
    + exists kept. split; [reflexivity|]. split; [|now intros _].
      rewrite Hk. apply filter_length_le.
  - intros [= <-]. split; [reflexivity|]. exists rs.
    split; [reflexivity|]. split; [lia|discriminate].
Qed.

Lemma X17_filter_idempotent_witness :
  dietFilter (js "vegan") (JArr [record ["Vegetarian"]; record ["Keto"; "Vegan"]]) =
  Normal (JArr [record ["Vegetarian"]; record ["Keto"; "Vegan"]]).
Proof.
  exact (proj1 (@X17_filter_idempotent (js "vegan")
                  [record ["Vegetarian"]; record ["vegan"]; record ["Keto"; "Vegan"]]
                  (JArr [record ["Vegetarian"]; record ["Keto"; "Vegan"]])
                  eq_refl)).
Defined.

(* ================================================================== *)
(** ** The difficulty badge *)

Section Badge.

Variable toLowerCase : jsstring -> jsstring.
Hypothesis toLowerCase_ascii : lowers_ascii toLowerCase.

Lemma asciiLower_upper (c : N) : asciiLower (asciiUpper c) = asciiLower c.
Proof.
  unfold asciiLower, asciiUpper.
  destruct (N.leb_spec 97 c), (N.leb_spec c 122); simpl;
    repeat match goal with
           | |- context [?a <=? ?b] => destruct (N.leb_spec a b); simpl; try lia
           end.
Qed.

Lemma asciiLower_lower (c : N) : asciiLower (asciiLower c) = asciiLower c.
Proof.
  unfold asciiLower.
  destruct (N.leb_spec 65 c), (N.leb_spec c 90); simpl;
    repeat match goal with
           | |- context [?a <=? ?b] => destruct (N.leb_spec a b); simpl; try lia
           end.
Qed.

Lemma isAscii_map (f : N -> N) (s : jsstring) :
  (forall c, c < 128 -> f c < 128) ->
  isAscii s = true -> isAscii (List.map f s) = true.
Proof.
  intros Hf. unfold isAscii. rewrite !forallb_forall. intros H c Hc.
  apply in_map_iff in Hc as (d & <- & Hd). apply N.ltb_lt, Hf, N.ltb_lt. auto.
Qed.

Lemma asciiUpper_ascii (c : N) : c < 128 -> asciiUpper c < 128.
Proof.
  unfold asciiUpper. intros H.
  destruct (N.leb_spec 97 c), (N.leb_spec c 122); simpl; lia.
Qed.

Lemma asciiLower_ascii (c : N) : c < 128 -> asciiLower c < 128.
Proof.
  unfold asciiLower. intros H.
  destruct (N.leb_spec 65 c), (N.leb_spec c 90); simpl; lia.
Qed.

Lemma color_by_lower (s1 s2 : jsstring) :
  isAscii s1 = true -> isAscii s2 = true ->
  List.map asciiLower s1 = List.map asciiLower s2 ->
  getDifficultyColor toLowerCase s1 = getDifficultyColor toLowerCase s2.
Proof.
  intros H1 H2 E. unfold getDifficultyColor.
  now rewrite (toLowerCase_ascii _ H1), (toLowerCase_ascii _ H2), E.
Qed.

Lemma color_ignores_case (s : jsstring) :
  isAscii s = true ->
  getDifficultyColor toLowerCase (List.map asciiUpper s) =
    getDifficultyColor toLowerCase s /\
  getDifficultyColor toLowerCase (List.map asciiLower s) =
    getDifficultyColor toLowerCase s.
Proof.
  intros H. split; apply color_by_lower; try exact H.
  - apply isAscii_map; [exact asciiUpper_ascii|exact H].
  - rewrite map_map. apply map_ext. exact asciiLower_upper.
  - apply isAscii_map; [exact asciiLower_ascii|exact H].
  - rewrite map_map. apply map_ext. exact asciiLower_lower.
Qed.

Lemma badge_answers (r : JsValue) :
  (exists cls, badgeClass toLowerCase r = Normal cls) <->
  isString (own_difficulty r) = true.
Proof.
  unfold badgeClass, own_difficulty.
  destruct r as [| | | | |props]; simpl;
    try (split; [intros [? H]|intros H]; discriminate).
  destruct (obj_get props (js "difficulty")) as [[| | |s| |]|]; simpl;
    try (split; [intros [? H]|intros H]; discriminate).
  split; [reflexivity|]. intros _. eauto.
Qed.

End Badge.

(** X18: on ASCII text the colour of the difficulty badge does not depend
    on the case of the letters: two texts that agree up to case get the
    same class, so a text and its upper-case and lower-case forms do. *)
Theorem X18_difficulty_case_insensitive
    (toLowerCase : jsstring -> jsstring) (s1 s2 : jsstring) :
  lowers_ascii toLowerCase ->
  isAscii s1 = true -> isAscii s2 = true ->
  List.map asciiLower s1 = List.map asciiLower s2 ->
  getDifficultyColor toLowerCase s1 = getDifficultyColor toLowerCase s2 /\
  getDifficultyColor toLowerCase (List.map asciiUpper s1) =
    getDifficultyColor toLowerCase s1.
Proof.
  intros Hl H1 H2 E. split.
  - now apply color_by_lower.
  - now apply color_ignores_case.
Qed.

Lemma X18_difficulty_case_insensitive_witness :
  getDifficultyColor (List.map asciiLower) (js "MEDIUM") = js "bg-food-orange" /\
  getDifficultyColor (List.map asciiLower) (js "Medium") =
    getDifficultyColor (List.map asciiLower) (js "mEdIuM").
Proof.
  destruct (@X18_difficulty_case_insensitive (List.map asciiLower)
              (js "Medium") (js "mEdIuM") (fun _ _ => eq_refl)
              eq_refl eq_refl eq_refl) as [H1 H2].
  split; [|exact H1].
  change (js "MEDIUM") with (List.map asciiUpper (js "Medium")).
  rewrite H2. reflexivity.
Defined.

(** X19: the class of the badge can be computed exactly for the records
    whose [difficulty] is a string; for every other record (no such field,
    a number, [null]) the call of [toLowerCase] throws while the card is
    rendered. *)
Theorem X19_badge_needs_string (toLowerCase : jsstring -> jsstring) (r : JsValue) :
  ((exists cls, badgeClass toLowerCase r = Normal cls) <->
   isString (own_difficulty r) = true) /\
  (isString (own_difficulty r) = false ->
   badgeClass toLowerCase r = Throw TypeError).
Proof.
  split; [apply badge_answers|].
  unfold badgeClass, own_difficulty.
  destruct r as [| | | | |props]; simpl; try reflexivity.
  destruct (obj_get props (js "difficulty")) as [[| | |s| |]|]; simpl;
    try reflexivity. discriminate.
Qed.

Lemma X19_badge_needs_string_witness :
  badgeClass (List.map asciiLower) (record ["Vegan"]) = Throw TypeError.
Proof.
  exact (proj2 (@X19_badge_needs_string (List.map asciiLower) (record ["Vegan"]))
           eq_refl).
Defined.

(* ================================================================== *)
(** ** The filter and the tag badges of a card *)



